(** * pureapi-core: the router and the dispatch handler

    A shallow embedding of [router/router.go], [router/methods.go],
    [server/response_writer.go] and the dispatch handler of package
    [server], with the properties of the routing core stated over it.

    Go strings are byte strings and are modelled by [string]; Go maps by
    stdpp's [gmap]; a [nil] map, handler or pointer result by [None]. *)

From Stdlib Require Import ZArith Ascii String List Lia.
From stdpp Require Import base option list gmap sets strings sorting.

#[local] Set Warnings "-clear-no-such-hyp".

Local Open Scope string_scope.
Local Open Scope Z_scope.

(** ** Go slices

    [MethodsFor] is specified to return an empty, non-nil slice, and its
    test compares with [reflect.DeepEqual], which tells a nil slice from an
    empty one; so a slice is either [nil] or made, with its elements. *)

Module Slice.

Inductive slice (A : Type) : Type :=
| Nil
| Made (elems : list A).
Arguments Nil {A}.
Arguments Made {A} elems.

(** [make([]T, 0, n)] *)
Definition make {A} : slice A := Made [].

(** [range s] and [len(s)] see a nil slice as empty. *)
Definition elems {A} (s : slice A) : list A :=
  match s with Nil => [] | Made l => l end.

Definition len {A} (s : slice A) : Z := Z.of_nat (length (elems s)).

(** [append(s, x)] always returns a made slice. *)
Definition append1 {A} (s : slice A) (x : A) : slice A :=
  Made (elems s ++ [x])%list.

(** [append(s, t...)] returns [s] itself when [t] has no element. *)
Definition append {A} (s t : slice A) : slice A :=
  match elems t with
  | [] => s
  | _ :: _ => Made (elems s ++ elems t)%list
  end.

End Slice.
Export Slice.

(** ** The part of package [strings] the router uses *)

Module Strings.

Definition slash : ascii := "/"%char.

(** [s[0]], when [len(s) > 0] *)
Definition first_byte (s : string) : option ascii :=
  match s with
  | EmptyString => None
  | String c _ => Some c
  end.

(** [s[len(s)-1]], when [len(s) > 0] *)
Fixpoint last_byte (s : string) : option ascii :=
  match s with
  | EmptyString => None
  | String c EmptyString => Some c
  | String _ s' => last_byte s'
  end.

Definition len (s : string) : Z := Z.of_nat (String.length s).

(** [s[1:]] *)
Definition tail (s : string) : string :=
  match s with
  | EmptyString => EmptyString
  | String _ s' => s'
  end.

(** [s[1:len(s)-1]] *)
Definition inner (s : string) : string :=
  String.substring 1 (String.length s - 2) s.

(** [strings.TrimLeft(s, "/")] *)
Fixpoint TrimLeft (s : string) : string :=
  match s with
  | EmptyString => EmptyString
  | String c s' => if Ascii.eqb c slash then TrimLeft s' else s
  end.

(** [strings.TrimRight(s, "/")] *)
Fixpoint TrimRight (s : string) : string :=
  match s with
  | EmptyString => EmptyString
  | String c s' =>
      match TrimRight s' with
      | EmptyString => if Ascii.eqb c slash then EmptyString else String c EmptyString
      | t => String c t
      end
  end.

(** [strings.Trim(s, "/")]: every leading and every trailing slash goes. *)
Definition Trim (s : string) : string := TrimLeft (TrimRight s).

(** [strings.Split(s, "/")]: the pieces between the slashes; one more piece
    than there are slashes, so a single empty piece for the empty string. *)
Fixpoint Split (s : string) : list string :=
  match s with
  | EmptyString => [EmptyString]
  | String c s' =>
      if Ascii.eqb c slash then EmptyString :: Split s'
      else match Split s' with
           | [] => [String c EmptyString]
           | p :: ps => String c p :: ps
           end
  end.

(** [strings.HasPrefix(s, p)] for a one-byte [p] *)
Definition HasPrefixByte (s : string) (c : ascii) : bool :=
  match first_byte s with
  | Some c' => Ascii.eqb c' c
  | None => false
  end.

(** [strings.HasSuffix(s, p)] for a one-byte [p] *)
Definition HasSuffixByte (s : string) (c : ascii) : bool :=
  match last_byte s with
  | Some c' => Ascii.eqb c' c
  | None => false
  end.

(** [strings.Join(elems, sep)] *)
Fixpoint Join (l : list string) (sep : string) : string :=
  match l with
  | [] => EmptyString
  | [x] => x
  | x :: l' => x ++ sep ++ Join l' sep
  end.

End Strings.

(** ** [slices.Sort] on strings

    Go compares strings byte by byte, which is [String.compare]. The
    result of sorting is the one sorted arrangement of the elements. *)

Module Slices.

Definition string_le (s1 s2 : string) : Prop := String.leb s1 s2 = true.

#[global] Instance string_le_dec : RelDecision string_le.
Proof. intros s1 s2. unfold string_le. apply _. Defined.

Definition Sort (s : slice string) : slice string :=
  match s with
  | Nil => Nil
  | Made l => Made (merge_sort string_le l)
  end.

End Slices.

(** ** Requests, as far as the core reads them *)

Module Http.

(** The errors of a read: [io.EOF] and [*http.MaxBytesError]. *)
Inductive readError : Type :=
| EOF
| MaxBytesError (limit : Z).

(** The state of [net/http]'s [maxBytesReader]. *)
Record maxBytesReader : Type := MkMaxBytesReader {
  mb_n   : Z;                 (* bytes remaining *)
  mb_i   : Z;                 (* the limit it was made with *)
  mb_err : option readError   (* sticky error *)
}.

(** The body of a request is a reader: the bytes of the payload not yet
    read, possibly behind limiters installed by [http.MaxBytesReader]. *)
Inductive body : Type :=
| Payload (pending : list Byte.byte)
| Limited (l : maxBytesReader) (inner : body).

(** [http.MaxBytesReader(w, r, n)]; the writer is only told to close the
    connection when it is the server's own response type, which the
    tracking writer is not. *)
Definition MaxBytesReader (r : body) (n : Z) : body :=
  let n := if n <? 0 then 0 else n in
  Limited {| mb_n := n; mb_i := n; mb_err := None |} r.

(** [Read(p)] with [len(p) = plen]: the bytes read, the error, and the
    reader afterwards. The payload reads like a [bytes.Reader]; the limiter
    is [net/http]'s [maxBytesReader.Read]. *)
Fixpoint Read (b : body) (plen : Z) : list Byte.byte * option readError * body :=
  match b with
  | Payload pending =>
      match pending with
      | [] => ([], Some EOF, b)
      | _ :: _ =>
          let k := Z.to_nat plen in
          (take k pending, None, Payload (drop k pending))
      end
  | Limited l inner =>
      match mb_err l with
      | Some e => ([], Some e, b)
      | None =>
          if plen =? 0 then ([], None, b)
          else
            let plen := if mb_n l <? plen - 1 then mb_n l + 1 else plen in
            let '(p, err, inner') := Read inner plen in
            let n := Z.of_nat (length p) in
            if n <=? mb_n l then
              (p, err, Limited {| mb_n := mb_n l - n; mb_i := mb_i l; mb_err := err |} inner')
            else
              let e := MaxBytesError (mb_i l) in
              (take (Z.to_nat (mb_n l)) p, Some e,
               Limited {| mb_n := 0; mb_i := mb_i l; mb_err := Some e |} inner')
      end
  end.

(** [io.ReadAll(r)]: reads until an error, which it reports unless it is
    [EOF]. [sizes] are the room the growing buffer offers at each call,
    each positive; the reply for a reader that has not ended when they
    run out is [None]. *)
Fixpoint ReadAll (sizes : list Z) (b : body) (acc : list Byte.byte)
  : option (list Byte.byte * option readError) :=
  match sizes with
  | [] => None
  | plen :: sizes' =>
      let '(p, err, b') := Read b plen in
      match err with
      | Some EOF => Some (acc ++ p, None)%list
      | Some e => Some (acc ++ p, Some e)%list
      | None => ReadAll sizes' b' (acc ++ p)%list
      end
  end.

(** A decoded query value: one string, or several for a repeated key. *)
Inductive queryValue : Type :=
| QOne (v : string)
| QMany (vs : list string).

Record Request : Type := MkRequest {
  Method        : string;
  Path          : string;                        (* URL.Path *)
  Query         : list (string * list string);   (* URL.Query() *)
  ContentLength : Z;                             (* -1 when unknown *)
  Body          : body;
  (* the two values the dispatch handler puts into the context *)
  ctxQueryMap    : option (gmap string queryValue);
  ctxRouteParams : option (gmap string string)
}.

End Http.
Export Http.

(** ** [router/router.go] *)

Module Router.

Abbreviation Params := (gmap string string).

Section WithHandler.

(** [http.Handler], an interface the router only stores. *)
Context {Handler : Type}.

Record Matched : Type := MkMatched {
  mHandler : Handler;
  mParams  : option Params      (* [None] is the nil map *)
}.

Record segment : Type := MkSegment {
  lit     : string;
  name    : string;
  isParam : bool
}.

Record routeEntry : Type := MkRouteEntry {
  pattern : string;
  segs    : list segment;
  h       : Handler
}.

Record BuiltinRouter : Type := MkBuiltinRouter {
  exact : gmap string (gmap string Handler);
  param : gmap string (list routeEntry)
}.

Definition NewBuiltinRouter : BuiltinRouter :=
  {| exact := ∅; param := ∅ |}.

Definition splitPath (p : string) : list string :=
  if String.eqb p "/" then [""]
  else Strings.Split (Strings.Trim p).

Definition isParamSeg (s : string) : bool :=
  ((0 <? Strings.len s) && bool_decide (Strings.first_byte s = Some ":"%char))
  || ((1 <? Strings.len s)
      && bool_decide (Strings.first_byte s = Some "{"%char)
      && bool_decide (Strings.last_byte s = Some "}"%char)).

Definition trimDelims (s : string) : string :=
  if bool_decide (Strings.first_byte s = Some ":"%char) then Strings.tail s
  else if bool_decide (Strings.first_byte s = Some "{"%char)
          && bool_decide (Strings.last_byte s = Some "}"%char)
       then Strings.inner s
       else s.

Definition hasParam (p : string) : bool :=
  existsb isParamSeg (splitPath p).

Definition compile (pat : string) : list segment :=
  (λ p, if isParamSeg p
        then {| lit := ""; name := trimDelims p; isParam := true |}
        else {| lit := p; name := ""; isParam := false |}) <$> splitPath pat.

(** The loop of [match]: [i] is the index of the head of [sgs] in the
    compiled pattern; [parts[i]] is in range because the lengths were
    compared first, and out of range would be a run-time panic. *)
Fixpoint match_loop (i : nat) (sgs : list segment) (parts : list string)
    (params : Params) : option Params :=
  match sgs with
  | [] => Some params
  | sg :: sgs' =>
      match parts !! i with
      | None => None
      | Some pp =>
          if isParam sg then
            if String.eqb pp "" then None
            else match_loop (S i) sgs' parts (<[name sg := pp]> params)
          else if negb (String.eqb (lit sg) pp) then None
          else match_loop (S i) sgs' parts params
      end
  end.

(** [match(segs, path)]; [None] is the nil map. *)
Definition match_ (sgs : list segment) (path : string) : option Params :=
  let parts := splitPath path in
  if negb (length parts =? length sgs)%nat then None
  else match_loop 0 sgs parts ∅.

(** [Register]; the error it returns is always nil. *)
Definition Register (r : BuiltinRouter) (method pat : string)
    (hd : option Handler) : BuiltinRouter :=
  match hd with
  | None => r
  | Some hd =>
      if String.eqb method "" || String.eqb pat "" then r
      else if negb (hasParam pat) then
        let mm := default ∅ (exact r !! method) in
        {| exact := <[method := <[pat := hd]> mm]> (exact r);
           param := param r |}
      else
        let sgs := compile pat in
        {| exact := exact r;
           param := <[method := (default [] (param r !! method)
                                 ++ [{| pattern := pat; segs := sgs; h := hd |}])%list]>
                      (param r) |}
  end.

(** [Unregister]; the error it returns is always nil. *)
Definition Unregister (r : BuiltinRouter) (method pat : string) : BuiltinRouter :=
  let exact' :=
    match exact r !! method with
    | Some mm => <[method := delete pat mm]> (exact r)
    | None => exact r
    end in
  let entries := default [] (param r !! method) in
  let param' :=
    if (0 <? length entries)%nat then
      let dst := filter (λ e, pattern e ≠ pat) entries in
      if (length dst =? 0)%nat then delete method (param r)
      else <[method := dst]> (param r)
    else param r in
  {| exact := exact'; param := param' |}.

(** The scan of [Match] over the parameterized entries. *)
Fixpoint scan (entries : list routeEntry) (path : string) : option Matched :=
  match entries with
  | [] => None
  | e :: rest =>
      match match_ (segs e) path with
      | Some params => Some {| mHandler := h e; mParams := Some params |}
      | None => scan rest path
      end
  end.

Definition Match (r : BuiltinRouter) (req : Request) : option Matched :=
  let method := Method req in
  let path := Path req in
  match exact r !! method ≫= (.!! path) with
  | Some hd => Some {| mHandler := hd; mParams := Some ∅ |}
  | None => scan (default [] (param r !! method)) path
  end.

(** *** [router/methods.go] *)

(** [matchSegments], the copy of [match] that [MethodsFor] calls. *)
Definition matchSegments (sgs : list segment) (path : string) : option Params :=
  let parts := splitPath path in
  if negb (length parts =? length sgs)%nat then None
  else match_loop 0 sgs parts ∅.

Definition order : list string :=
  ["OPTIONS"; "GET"; "HEAD"; "POST"; "PUT"; "PATCH"; "DELETE"].

(** The two [range] loops that collect the methods matching [path]. Go
    visits a map in an unspecified order; [map_fold] visits it in some
    order, and the set collected does not depend on which. *)
Definition collect_exact (path : string) (ex : gmap string (gmap string Handler))
    (set : gset string) : gset string :=
  map_fold (λ m table set,
              if decide (is_Some (table !! path)) then {[m]} ∪ set else set)
           set ex.

Definition collect_param (path : string) (pm : gmap string (list routeEntry))
    (set : gset string) : gset string :=
  map_fold (λ m entries set,
              foldl (λ set e,
                       if decide (is_Some (matchSegments (segs e) path))
                       then {[m]} ∪ set else set)
                    set entries)
           set pm.

(** The loop over [order]: a preferred method of the set goes to [out]
    and leaves the set. *)
Definition take_ordered (out : slice string) (set : gset string)
  : slice string * gset string :=
  foldl (λ st m,
           if decide (m ∈ st.2) then (append1 st.1 m, st.2 ∖ {[m]}) else st)
        (out, set) order.

Definition MethodsFor (r : BuiltinRouter) (path : string) : slice string :=
  let set := collect_exact path (exact r) ∅ in
  let set := collect_param path (param r) set in
  let set := if decide ("GET" ∈ set) then {["HEAD"]} ∪ set else set in
  let set := if (0 <? size set)%nat then {["OPTIONS"]} ∪ set else set in
  let '(out, set) := take_ordered make set in
  let rest := foldl append1 make (elements set) in
  let rest := Slices.Sort rest in
  append out rest.

End WithHandler.

Arguments Matched : clear implicits.
Arguments routeEntry : clear implicits.
Arguments BuiltinRouter : clear implicits.

End Router.

(** ** Package [event], as far as the dispatch handler builds events *)

Module Event.

(** The values a handler can panic with and an event can carry ([any]):
    a string, an error, a struct, a slice of strings. *)
Inductive any : Type :=
| AString (s : string)
| AError (msg : string)
| AStruct (fields : list string)
| AStrings (l : list string).

(** [fmt.Sprintf("%v", v)] *)
Definition fmt_v (v : any) : string :=
  match v with
  | AString s => s
  | AError msg => msg
  | AStruct fields => "{" ++ Strings.Join fields " " ++ "}"
  | AStrings l => "[" ++ Strings.Join l " " ++ "]"
  end.

Record Event : Type := MkEvent {
  Type_   : string;
  Message : string;
  Data    : option (gmap string any)
}.

Definition NewEvent (eventType message : string) : Event :=
  {| Type_ := eventType; Message := message; Data := None |}.

Definition WithData (e : Event) (data : gmap string any) : Event :=
  {| Type_ := Type_ e; Message := Message e; Data := Some data |}.

End Event.
Export Event.

(** ** Package [server]: the tracking writer and the dispatch handler *)

Module Server.

Import Router.

Definition EventPanic : string := "event_panic".

Definition StatusOK : Z := 200.
Definition StatusNoContent : Z := 204.
Definition StatusMethodNotAllowed : Z := 405.
Definition StatusRequestEntityTooLarge : Z := 413.
Definition StatusInternalServerError : Z := 500.

(** [http.StatusText], for the codes the dispatch handler asks it *)
Definition StatusText (code : Z) : string :=
  if code =? 405 then "Method Not Allowed"
  else if code =? 500 then "Internal Server Error"
  else "".

(** What a handler does to the world: the calls it makes on the
    [http.ResponseWriter] it is given, and the events it hands to the
    emitter. Header writes go to the header map the writer exposes. *)
Inductive effect : Type :=
| HeaderSet (k v : string)
| HeaderDel (k : string)
| WriteHeader (code : Z)
| Write (data : string)
| Emit (e : Event).

Inductive outcome : Type :=
| Returned
| Panicked (v : any).

(** One run of [ServeHTTP(w, r)]: its effects in order, and how it ended.
    Every writer of this package answers [Write(p)] with [len(p), nil]
    when the transport below accepts the bytes, which is assumed, so a
    handler learns nothing from its writer that it could branch on. *)
Record run : Type := MkRun {
  effects : list effect;
  result  : outcome
}.

(** [http.Handler] *)
Definition httpHandler : Type := Request → run.

(** *** [server/response_writer.go] *)

Record trackingResponseWriter : Type := MkTracking {
  wroteHeader  : bool;
  bytesWritten : Z
}.

Definition newTrackingResponseWriter : trackingResponseWriter :=
  {| wroteHeader := false; bytesWritten := 0 |}.

(** Each method returns the writer afterwards and the calls it forwarded
    to the embedded [ResponseWriter]. *)
Definition tw_WriteHeader (w : trackingResponseWriter) (code : Z)
  : trackingResponseWriter * list effect :=
  if wroteHeader w then (w, [])
  else ({| wroteHeader := true; bytesWritten := bytesWritten w |},
        [WriteHeader code]).

Definition tw_Write (w : trackingResponseWriter) (data : string)
  : trackingResponseWriter * list effect :=
  let '(w, fwd) :=
    if negb (wroteHeader w) then tw_WriteHeader w StatusOK else (w, []) in
  let n := Strings.len data in
  ({| wroteHeader := wroteHeader w; bytesWritten := bytesWritten w + n |},
   (fwd ++ [Write data])%list).


(** One effect of a handler that was given the tracking writer: [Header()]
    is the embedded writer's, and events do not touch the writer. *)
Definition tw_step (w : trackingResponseWriter) (e : effect)
  : trackingResponseWriter * list effect :=
  match e with
  | WriteHeader code => tw_WriteHeader w code
  | Write data => tw_Write w data
  | HeaderSet _ _ | HeaderDel _ | Emit _ => (w, [e])
  end.

Fixpoint tw_play (w : trackingResponseWriter) (es : list effect)
  : trackingResponseWriter * list effect :=
  match es with
  | [] => (w, [])
  | e :: es' =>
      let '(w1, fwd1) := tw_step w e in
      let '(w2, fwd2) := tw_play w1 es' in
      (w2, (fwd1 ++ fwd2)%list)
  end.

(** A run made on the tracking writer in state [w]: what reaches the
    writer below it. *)
Definition tracked (w : trackingResponseWriter) (b : run) : run :=
  {| effects := (tw_play w (effects b)).2; result := result b |}.

(** *** [discardingWriter] *)

(** [Write] returns [len(p), nil] and forwards nothing; the other methods
    are those of the embedded writer. *)
Definition dw_step (e : effect) : list effect :=
  match e with
  | Write _ => []
  | _ => [e]
  end.

(** A run made on a discarding writer: what reaches the writer below
    it. *)
Definition discarded (b : run) : run :=
  {| effects := flat_map dw_step (effects b); result := result b |}.

(** *** [net/http] helpers *)

Definition newline : string := String (ascii_of_nat 10) EmptyString.

(** [http.Error(w, error, code)] *)
Definition http_Error (error : string) (code : Z) : list effect :=
  [ HeaderDel "Content-Length";
    HeaderSet "Content-Type" "text/plain; charset=utf-8";
    HeaderSet "X-Content-Type-Options" "nosniff";
    WriteHeader code;
    Write (error ++ newline) ].

(** [http.NotFoundHandler()] *)
Definition NotFoundHandler : httpHandler :=
  λ _, {| effects := http_Error "404 page not found" 404; result := Returned |}.

(** *** The dispatch handler *)

(** [router.Router] as the dispatch handler uses it: [Match], and
    [MethodsFor] when the implementation has it. *)
Record Router : Type := MkRouter {
  rMatch      : Request → option (Matched httpHandler);
  rMethodsFor : option (string → slice string)
}.

Definition builtin (r : BuiltinRouter httpHandler) : Router :=
  {| rMatch := Match r; rMethodsFor := Some (MethodsFor r) |}.

(** The emitter is a sink, and the lock only orders accesses: what is
    emitted is kept among the effects, in the order of emission. *)
Record Handler : Type := MkHandler {
  router           : Router;
  queryDecoder     : list (string * list string) → gmap string queryValue;
  notFound         : httpHandler;
  recoverer        : httpHandler → httpHandler;
  bodyLimit        : Z;
  registeredRoutes : gmap string (gmap string bool)
}.

Definition panicRecovery (err : any) : list effect :=
  (Emit (WithData (NewEvent EventPanic ("Panic recovered: " ++ fmt_v err))
                 {["panic" := err]})
   :: http_Error (StatusText StatusInternalServerError) StatusInternalServerError)%list.

(** [createRecoverer]: the deferred function runs [panicRecovery] on the
    writer the wrapped handler was given, and the panic ends there. *)
Definition createRecoverer : httpHandler → httpHandler :=
  λ next r,
    let b := next r in
    match result b with
    | Panicked err =>
        {| effects := (effects b ++ panicRecovery err)%list; result := Returned |}
    | Returned => b
    end.

(** [stableAllow] *)
Definition stableAllow (methods : gset string) : slice string :=
  let h := set_fold (λ m h, {[m]} ∪ h) (∅ : gset string) methods in
  let h := if decide ("GET" ∈ h) then {["HEAD"]} ∪ h else h in
  let h := if (0 <? size h)%nat then {["OPTIONS"]} ∪ h else h in
  let '(out, h) := take_ordered make h in
  let rest := foldl append1 make (elements h) in
  let rest := Slices.Sort rest in
  append out rest.

(** The loop of [matchesPattern] *)
Fixpoint matchesPattern_loop (i : nat) (patternParts pathParts : list string) : bool :=
  match patternParts with
  | [] => true
  | patternPart :: rest =>
      match pathParts !! i with
      | None => false
      | Some pathPart =>
          if Strings.HasPrefixByte patternPart ":"%char
             || (Strings.HasPrefixByte patternPart "{"%char
                 && Strings.HasSuffixByte patternPart "}"%char)
          then
            if String.eqb pathPart "" then false
            else matchesPattern_loop (S i) rest pathParts
          else if negb (String.eqb patternPart pathPart) then false
          else matchesPattern_loop (S i) rest pathParts
      end
  end.

Definition matchesPattern (pat path : string) : bool :=
  let patternParts := Strings.Split (Strings.Trim pat) in
  let pathParts := Strings.Split (Strings.Trim path) in
  if negb (length patternParts =? length pathParts)%nat then false
  else matchesPattern_loop 0 patternParts pathParts.

Definition allowedMethods (h : Handler) (path : string) : slice string :=
  match rMethodsFor (router h) with
  | Some mf => mf path
  | None =>
      let set : gset string :=
        match registeredRoutes h !! path with
        | Some mm => dom mm
        | None => ∅
        end in
      let set :=
        map_fold (λ pat mm set,
                    if String.eqb pat path || matchesPattern pat path
                    then dom mm ∪ set else set)
                 set (registeredRoutes h) in
      stableAllow set
  end.

(** [methods[method]] on a [map[string]bool] *)
Definition has_method (methods : gmap string bool) (method : string) : bool :=
  default false (methods !! method).

Definition isMethodNotAllowed (h : Handler) (r : Request) : bool :=
  let path := Path r in
  let method := Method r in
  (match registeredRoutes h !! path with
   | Some methods => negb (has_method methods method)
   | None => false
   end)
  || map_fold (λ registeredPath methods found,
                 found || (matchesPattern registeredPath path
                           && negb (has_method methods method)))
              false (registeredRoutes h).

(** [len(m.Params)] *)
Definition len_params (p : option Params) : Z :=
  match p with
  | None => 0
  | Some m => Z.of_nat (size m)
  end.

(** The block each branch repeats: the decoded query and, when there are
    any, the route parameters go into the context of the request. *)
Definition withContext (h : Handler) (r : Request) (params : option Params) : Request :=
  let qm := queryDecoder h (Query r) in
  {| Method := Method r; Path := Path r; Query := Query r;
     ContentLength := ContentLength r; Body := Body r;
     ctxQueryMap := Some qm;
     ctxRouteParams := if 0 <? len_params params then params else ctxRouteParams r |}.

Definition withMethod (r : Request) (method : string) : Request :=
  {| Method := method; Path := Path r; Query := Query r;
     ContentLength := ContentLength r; Body := Body r;
     ctxQueryMap := ctxQueryMap r; ctxRouteParams := ctxRouteParams r |}.

Definition withBody (r : Request) (b : body) : Request :=
  {| Method := Method r; Path := Path r; Query := Query r;
     ContentLength := ContentLength r; Body := b;
     ctxQueryMap := ctxQueryMap r; ctxRouteParams := ctxRouteParams r |}.

Definition tw0 := newTrackingResponseWriter.

(** [ServeHTTP], the block under [if m == nil] *)
Definition serveUnmatched (h : Handler) (r : Request) : run :=
  if isMethodNotAllowed h r then
    let allow := allowedMethods h (Path r) in
    tracked tw0
      {| effects :=
           ((if 0 <? Slice.len allow
             then [HeaderSet "Allow" (Strings.Join (elems allow) ", ")]
             else [])
            ++ http_Error (StatusText StatusMethodNotAllowed)
                          StatusMethodNotAllowed)%list;
         result := Returned |}
  else tracked tw0 (notFound h r).

(** [ServeHTTP] from [m := h.router.Match(r)] on: the HEAD fallback, the
    unmatched request, the matched one. *)
Definition serveMatch (h : Handler) (r : Request) : run :=
  let m := rMatch (router h) r in
  let fallback :=
    if bool_decide (m = None) && String.eqb (Method r) "HEAD" then
      let r2 := withMethod r "GET" in
      match rMatch (router h) r2 with
      | Some m2 =>
          let r2 := withContext h r2 (mParams m2) in
          Some (tracked tw0 (recoverer h (λ _, discarded (mHandler m2 r2)) r2))
      | None => None
      end
    else None in
  match fallback with
  | Some served => served
  | None =>
      match m with
      | None => serveUnmatched h r
      | Some m =>
          let r := withContext h r (mParams m) in
          tracked tw0 (recoverer h (mHandler m) r)
      end
  end.

(** [ServeHTTP] after the body guard: the OPTIONS branch, then the rest. *)
Definition serveRoutes (h : Handler) (r : Request) : run :=
  if String.eqb (Method r) "OPTIONS" then
    match rMatch (router h) r with
    | Some m =>
        let r := withContext h r (mParams m) in
        tracked tw0 (recoverer h (mHandler m) r)
    | None =>
        let allow := allowedMethods h (Path r) in
        if 0 <? Slice.len allow then
          tracked tw0
            {| effects := [HeaderSet "Allow" (Strings.Join (elems allow) ", ");
                           WriteHeader StatusNoContent];
               result := Returned |}
        else serveMatch h r
    end
  else serveMatch h r.

Definition ServeHTTP (h : Handler) (r : Request) : run :=
  if (0 <? bodyLimit h) && (bodyLimit h <? ContentLength r) then
    tracked tw0
      {| effects := http_Error "Request body too large" StatusRequestEntityTooLarge;
         result := Returned |}
  else
    let r := if 0 <? bodyLimit h
             then withBody r (MaxBytesReader (Body r) (bodyLimit h))
             else r in
    serveRoutes h r.

(** [NewHandler] with its options; the built-in router and recovery
    wrapper are what an option can replace. *)
Definition HandlerOption : Type := Handler → Handler.

Definition WithRouter (r : Router) : HandlerOption :=
  λ h, {| router := r; queryDecoder := queryDecoder h; notFound := notFound h;
          recoverer := recoverer h; bodyLimit := bodyLimit h;
          registeredRoutes := registeredRoutes h |}.

Definition WithRecoverer (wrap : httpHandler → httpHandler) : HandlerOption :=
  λ h, {| router := router h; queryDecoder := queryDecoder h; notFound := notFound h;
          recoverer := wrap; bodyLimit := bodyLimit h;
          registeredRoutes := registeredRoutes h |}.

Definition WithBodyLimit (limit : Z) : HandlerOption :=
  λ h, {| router := router h; queryDecoder := queryDecoder h; notFound := notFound h;
          recoverer := recoverer h; bodyLimit := limit;
          registeredRoutes := registeredRoutes h |}.

(** [querydec.PlainDecoder]: one value stays a string, several a slice. *)
Definition PlainDecoder (values : list (string * list string)) : gmap string queryValue :=
  foldl (λ out kv,
           match kv.2 with
           | [v] => <[kv.1 := QOne v]> out
           | vs => <[kv.1 := QMany vs]> out
           end) ∅ values.

Definition NewHandler (opts : list HandlerOption) : Handler :=
  foldl (λ h opt, opt h)
        {| router := builtin NewBuiltinRouter;
           queryDecoder := PlainDecoder;
           notFound := NotFoundHandler;
           recoverer := createRecoverer;
           bodyLimit := 2 * 1024 * 1024;
           registeredRoutes := ∅ |}
        opts.

End Server.

(** ** The vocabulary of the properties of the router *)

Module RouterSpec.

Import Router.

Section WithHandler.

Context {Handler : Type}.

(** A literal segment takes the path segment equal to it, a parameter
    segment any path segment that is not empty. *)
Definition accepts (sg : segment) (pp : string) : Prop :=
  if isParam sg then pp ≠ "" else lit sg = pp.

#[global] Instance accepts_dec sg pp : Decision (accepts sg pp).
Proof. unfold accepts. destruct (isParam sg); apply _. Defined.

(** A compiled pattern takes a path when it has as many segments as the
    path and each of its segments takes the path segment at its place. *)
Definition takes (sgs : list segment) (path : string) : Prop :=
  length sgs = length (splitPath path) ∧ Forall2 accepts sgs (splitPath path).

#[global] Instance takes_dec sgs path : Decision (takes sgs path).
Proof. unfold takes. apply _. Defined.

Definition qualifies (path : string) (e : routeEntry Handler) : Prop :=
  takes (segs e) path.

#[global] Instance qualifies_dec path e : Decision (qualifies path e).
Proof. unfold qualifies. apply _. Defined.

(** The parameters a pattern binds on the segments of a path, a later
    segment of the same name over an earlier one. *)
Definition bindings (sgs : list segment) (parts : list string) : Params :=
  foldl (λ ps sp, if isParam sp.1 then <[name sp.1 := sp.2]> ps else ps)
        ∅ (zip sgs parts).

(** The match an entry yields for a path it takes. *)
Definition matched_of (path : string) (e : routeEntry Handler) : Matched Handler :=
  {| mHandler := h e; mParams := Some (bindings (segs e) (splitPath path)) |}.

(** The two tables read through Go's zero values. *)
Definition exact_at (r : BuiltinRouter Handler) (method path : string) : option Handler :=
  exact r !! method ≫= (.!! path).

Definition entries_of (r : BuiltinRouter Handler) (method : string) : list (routeEntry Handler) :=
  default [] (param r !! method).

(** A series of [Register] calls, first to last. *)
Definition RegisterAll (r : BuiltinRouter Handler)
    (regs : list (string * string * option Handler)) : BuiltinRouter Handler :=
  foldl (λ r reg, Register r reg.1.1 reg.1.2 reg.2) r regs.

(** The methods that have a route for [path]: an exact pattern equal to
    it, or a parameterized pattern that takes it. *)
Definition routed (r : BuiltinRouter Handler) (path method : string) : Prop :=
  is_Some (exact_at r method path)
  ∨ ∃ e, e ∈ entries_of r method ∧ qualifies path e.

(** The allowed methods as the specification derives them from the
    methods routed: HEAD comes with GET, OPTIONS with anything. *)
Definition allowed (routed : string → Prop) (method : string) : Prop :=
  routed method
  ∨ (method = "HEAD" ∧ routed "GET")
  ∨ (method = "OPTIONS" ∧ ∃ m, routed m).

(** The set the two loops of [MethodsFor] collect. *)
Definition routed_set (r : BuiltinRouter Handler) (path : string) : gset string :=
  collect_param path (param r) (collect_exact path (exact r) ∅).

(** A registration that gives [method] a route for [path]: none of its
    arguments is empty or nil, and its pattern is the path itself or, when
    parameterized, takes it. *)
Definition serves (path method : string) (reg : string * string * option Handler) : Prop :=
  reg.1.1 = method ∧ reg.1.1 ≠ "" ∧ reg.1.2 ≠ "" ∧ reg.2 ≠ None
  ∧ if hasParam reg.1.2 then takes (compile reg.1.2) path else reg.1.2 = path.

(** The derived set: HEAD with GET, OPTIONS with anything. *)
Definition allow_set (U : gset string) : gset string :=
  let s := if decide ("GET" ∈ U) then {["HEAD"]} ∪ U else U in
  if (0 <? size s)%nat then {["OPTIONS"]} ∪ s else s.

(** What the tail of [MethodsFor] and [stableAllow] makes of a set. *)
Definition allow_list (S : gset string) : slice string :=
  Made (filter (.∈ S) order
        ++ merge_sort Slices.string_le (elements (S ∖ list_to_set order)))%list.

(** No pattern string twice in a list of one method. *)
Definition at_most_once (r : BuiltinRouter Handler) : Prop :=
  ∀ method, NoDup (pattern <$> entries_of r method).

(** The first entry of the pattern string removed, the others kept. *)
Fixpoint remove_first (pat : string) (entries : list (routeEntry Handler))
  : list (routeEntry Handler) :=
  match entries with
  | [] => []
  | e :: rest =>
      if decide (pattern e = pat) then rest else e :: remove_first pat rest
  end.

End WithHandler.

(** Fixtures: a request of a method for a path; the same parameterized
    pattern registered twice for GET, with handlers 1 and 2; the entry
    [Register] makes of a pattern. *)
Definition request (method path : string) : Request :=
  {| Method := method; Path := path; Query := []; ContentLength := 0;
     Body := Payload []; ctxQueryMap := None; ctxRouteParams := None |}.

Definition twice : BuiltinRouter nat :=
  RegisterAll NewBuiltinRouter
    [("GET", "/a/:x", Some 1%nat); ("GET", "/a/:x", Some 2%nat)].

Definition entry (pat : string) (hd : nat) : routeEntry nat :=
  {| pattern := pat; segs := compile pat; h := hd |}.

End RouterSpec.

(** ** The vocabulary of the properties of the dispatch handler *)

Module ServerSpec.

Import Router Server.




Definition statuses (es : list effect) : list Z :=
  omap (λ e, match e with WriteHeader code => Some code | _ => None end) es.

Fixpoint body_of (es : list effect) : string :=
  match es with
  | [] => ""
  | Write data :: es' => data ++ body_of es'
  | _ :: es' => body_of es'
  end.

Definition is_header (e : effect) : bool :=
  match e with HeaderSet _ _ | HeaderDel _ => true | _ => false end.

Definition headers (es : list effect) : list effect :=
  List.filter is_header es.

(** The status the calls of a handler commit on a tracking writer: the
    code of a [WriteHeader] that comes first, 200 when a [Write] does. *)
Fixpoint first_status (es : list effect) : option Z :=
  match es with
  | [] => None
  | WriteHeader code :: _ => Some code
  | Write _ :: _ => Some StatusOK
  | _ :: es' => first_status es'
  end.

(** The code of the first [WriteHeader] among the calls. *)
Definition first_WriteHeader (es : list effect) : option Z :=
  head (statuses es).



Definition generic_500_body : string := "Internal Server Error" ++ newline.

(** The body guard lets the request through. *)
Definition passes_guard (h : Handler) (r : Request) : Prop :=
  bodyLimit h ≤ 0 ∨ ContentLength r ≤ bodyLimit h.

(** The request as the stages after the guard see it. *)
Definition guarded (h : Handler) (r : Request) : Request :=
  if 0 <? bodyLimit h
  then withBody r (MaxBytesReader (Body r) (bodyLimit h))
  else r.

(** A request served by a matched route: the handler run under the
    recovery wrapper on the tracking writer, with the context filled. *)
Definition served (h : Handler) (r : Request) (m : Matched httpHandler) : run :=
  tracked tw0 (recoverer h (mHandler m) (withContext h r (mParams m))).


(** Fixtures: requests and handlers. *)
Definition request := RouterSpec.request.

Definition request_of_length (method path : string) (n : Z) : Request :=
  {| Method := method; Path := path; Query := []; ContentLength := n;
     Body := Payload []; ctxQueryMap := None; ctxRouteParams := None |}.

Definition getResource : httpHandler :=
  λ _, {| effects := [HeaderSet "X-Kind" "resource"; WriteHeader 200; Write "resource"];
          result := Returned |}.

Definition boom : httpHandler :=
  λ _, {| effects := []; result := Panicked (AString "boom") |}.


Definition lateStatus : httpHandler :=
  λ _, {| effects := [Write "x"; WriteHeader 404]; result := Returned |}.

Definition onBuiltin (regs : list (string * string * option httpHandler)) : Handler :=
  NewHandler [WithRouter (builtin (RouterSpec.RegisterAll NewBuiltinRouter regs))].

Definition limited4 : Handler :=
  NewHandler [WithRouter (builtin (RouterSpec.RegisterAll NewBuiltinRouter
                                     [("POST", "/echo", Some getResource)]));
              WithBodyLimit 4].

Definition digits (n : nat) : list Byte.byte :=
  take n [Byte.x31; Byte.x32; Byte.x33; Byte.x34; Byte.x35].

End ServerSpec.

(** ** More vocabulary for the router *)

Module RouterMore.

Import Router RouterSpec.

(** A byte string with a slash in it. *)
Fixpoint has_slash (s : string) : bool :=
  match s with
  | EmptyString => false
  | String c s' => Ascii.eqb c Strings.slash || has_slash s'
  end.

(** One step of the loop of [match] on a segment and its path segment. *)
Definition bind_step (ps : Params) (sp : segment * string) : Params :=
  if isParam sp.1 then <[name sp.1 := sp.2]> ps else ps.

(** Two routers that hold the same routes: the same handler at every
    method and exact pattern, the same list of entries for every method. *)
Definition same_routes {Handler} (r1 r2 : BuiltinRouter Handler) : Prop :=
  ∀ method, entries_of r1 method = entries_of r2 method
            ∧ ∀ pat, exact_at r1 method pat = exact_at r2 method pat.

Section WithHandler.

Context {Handler : Type}.

(** The calls that change a router. *)
Inductive routerOp : Type :=
| OpRegister (method pat : string) (hd : option Handler)
| OpUnregister (method pat : string).

Definition apply_op (r : BuiltinRouter Handler) (op : routerOp) : BuiltinRouter Handler :=
  match op with
  | OpRegister method pat hd => Register r method pat hd
  | OpUnregister method pat => Unregister r method pat
  end.

Definition apply_ops (r : BuiltinRouter Handler) (ops : list routerOp)
  : BuiltinRouter Handler :=
  foldl apply_op r ops.

(** What [Register] and [Unregister] keep true of the two tables: no
    empty method, no empty pattern; the exact table holds the patterns
    without parameters; a list of parameterized entries is never empty,
    and each entry has a parameter and the segments compiled from its
    pattern. *)
Definition entry_ok (e : routeEntry Handler) : Prop :=
  pattern e ≠ "" ∧ hasParam (pattern e) = true ∧ segs e = compile (pattern e).

Definition well_formed (r : BuiltinRouter Handler) : Prop :=
  (∀ method entries, param r !! method = Some entries →
     method ≠ "" ∧ entries ≠ [] ∧ ∀ e, e ∈ entries → entry_ok e)
  ∧ (∀ method table pat hd, exact r !! method = Some table → table !! pat = Some hd →
       method ≠ "" ∧ pat ≠ "" ∧ hasParam pat = false).

(** The segment both notations of the parameter [n] compile to. *)
Definition param_segment (n : string) : segment :=
  {| lit := ""; name := n; isParam := true |}.

(** [compile], one segment at a time. *)
Definition compile_segment (p : string) : segment :=
  if isParamSeg p
  then {| lit := ""; name := trimDelims p; isParam := true |}
  else {| lit := p; name := ""; isParam := false |}.

End WithHandler.

End RouterMore.

(** ** Middlewares, stacks and endpoints *)

Module Endpoint.

Import Server.

(** *** [endpoint/middleware.go] *)

Definition Middleware : Type := httpHandler → httpHandler.

Record DefaultMiddlewares : Type := MkMiddlewares {
  middlewares : list Middleware
}.

Definition NewMiddlewares (ms : list Middleware) : DefaultMiddlewares :=
  {| middlewares := ms |}.

(** The loop of [Chain], [i] running from [len - 1] down to 0; [n] is
    [i + 1]. An index out of range would be a run-time panic, and the
    loop never has one. *)
Fixpoint Chain_loop (n : nat) (ms : list Middleware) (wrapped : httpHandler)
  : httpHandler :=
  match n with
  | O => wrapped
  | S i =>
      match ms !! i with
      | Some m => Chain_loop i ms (m wrapped)
      | None => wrapped
      end
  end.

Definition Chain (m : DefaultMiddlewares) (h : httpHandler) : httpHandler :=
  Chain_loop (length (middlewares m)) (middlewares m) h.

Definition Add (m : DefaultMiddlewares) (ms : list Middleware) : DefaultMiddlewares :=
  let allMiddlewares := ([] ++ middlewares m)%list in
  let allMiddlewares := (allMiddlewares ++ ms)%list in
  NewMiddlewares allMiddlewares.

Record DefaultWrapper : Type := MkWrapper {
  id         : string;
  middleware : Middleware;
  data       : option any
}.

Definition NewWrapper (id : string) (middleware : Middleware) : DefaultWrapper :=
  {| id := id; middleware := middleware; data := None |}.

(** [DefaultWrapper.WithData] *)
Definition wrapper_WithData (w : DefaultWrapper) (d : option any) : DefaultWrapper :=
  {| id := id w; middleware := middleware w; data := d |}.

(** *** [endpoint/stack.go] *)

(** The lock of the stack only orders accesses. Every method that
    changes the stack changes the receiver and returns it: the stack
    returned is the state of the receiver afterwards. *)
Record DefaultStack : Type := MkStack {
  wrappers : list DefaultWrapper
}.

Definition NewStack (ws : list DefaultWrapper) : DefaultStack := {| wrappers := ws |}.

Definition Wrappers (s : DefaultStack) : list DefaultWrapper := wrappers s.

(** [DefaultStack.Middlewares] *)
Definition stack_Middlewares (s : DefaultStack) : DefaultMiddlewares :=
  NewMiddlewares (foldl (λ ms w, ms ++ [middleware w])%list [] (wrappers s)).

(** [make] and [copy] *)
Definition Clone (s : DefaultStack) : DefaultStack :=
  {| wrappers := take (length (wrappers s)) (wrappers s) |}.

Definition AddWrapper (s : DefaultStack) (w : DefaultWrapper) : DefaultStack :=
  {| wrappers := (wrappers s ++ [w])%list |}.

(** The [range] loop the three methods below share: the index of the
    first wrapper of the ID, from index [i] on. *)
Fixpoint find_ID (wanted : string) (ws : list DefaultWrapper) (i : nat) : option nat :=
  match ws with
  | [] => None
  | wrapper :: rest =>
      if String.eqb (id wrapper) wanted then Some i
      else find_ID wanted rest (S i)
  end.

Definition InsertBefore (s : DefaultStack) (wanted : string) (w : DefaultWrapper)
  : DefaultStack * bool :=
  match find_ID wanted (wrappers s) 0 with
  | Some i =>
      ({| wrappers := (take i (wrappers s) ++ ([w] ++ drop i (wrappers s)))%list |},
       true)
  | None => ({| wrappers := (wrappers s ++ [w])%list |}, false)
  end.

Definition InsertAfter (s : DefaultStack) (wanted : string) (w : DefaultWrapper)
  : DefaultStack * bool :=
  match find_ID wanted (wrappers s) 0 with
  | Some i =>
      let pos := (i + 1)%nat in
      ({| wrappers := (take pos (wrappers s) ++ ([w] ++ drop pos (wrappers s)))%list |},
       true)
  | None => ({| wrappers := (wrappers s ++ [w])%list |}, false)
  end.

Definition Remove (s : DefaultStack) (wanted : string) : DefaultStack * bool :=
  match find_ID wanted (wrappers s) 0 with
  | Some i =>
      ({| wrappers := (take i (wrappers s) ++ drop (i + 1) (wrappers s))%list |}, true)
  | None => (s, false)
  end.

(** *** [endpoint/endpoint.go] *)

(** A nil [Middlewares] and a nil [http.HandlerFunc] are [None]. *)
Record DefaultEndpoint : Type := MkEndpoint {
  URLVal         : string;
  MethodVal      : string;
  MiddlewaresVal : option DefaultMiddlewares;
  HandlerVal     : option httpHandler
}.

Definition NewEndpoint (url method : string) : DefaultEndpoint :=
  {| URLVal := url; MethodVal := method; MiddlewaresVal := None; HandlerVal := None |}.

(** [URL], [Method], [Middlewares] and [Handler] of an endpoint. *)
Definition ep_URL (e : DefaultEndpoint) : string := URLVal e.
Definition ep_Method (e : DefaultEndpoint) : string := MethodVal e.

Definition ep_Middlewares (e : DefaultEndpoint) : DefaultMiddlewares :=
  match MiddlewaresVal e with
  | None => NewMiddlewares []
  | Some m => m
  end.

Definition ep_Handler (e : DefaultEndpoint) : option httpHandler := HandlerVal e.

Definition ep_WithURL (e : DefaultEndpoint) (url : string) : DefaultEndpoint :=
  {| URLVal := url; MethodVal := MethodVal e;
     MiddlewaresVal := MiddlewaresVal e; HandlerVal := HandlerVal e |}.

Definition ep_WithMethod (e : DefaultEndpoint) (method : string) : DefaultEndpoint :=
  {| URLVal := URLVal e; MethodVal := method;
     MiddlewaresVal := MiddlewaresVal e; HandlerVal := HandlerVal e |}.

Definition ep_WithMiddlewares (e : DefaultEndpoint) (m : option DefaultMiddlewares)
  : DefaultEndpoint :=
  {| URLVal := URLVal e; MethodVal := MethodVal e;
     MiddlewaresVal := m; HandlerVal := HandlerVal e |}.

Definition ep_WithHandler (e : DefaultEndpoint) (handler : option httpHandler)
  : DefaultEndpoint :=
  {| URLVal := URLVal e; MethodVal := MethodVal e;
     MiddlewaresVal := MiddlewaresVal e; HandlerVal := handler |}.

(** *** [endpoint/definition.go] *)






End Endpoint.

(** ** Registration on the dispatch handler, and the facade *)

Module Dispatch.

Import Router Server Endpoint.

Definition StatusNotImplemented : Z := 501.
Definition EventRegisterURL : string := "event_register_url".

(** The handler registered for an endpoint that has none. *)
Definition notImplemented : httpHandler :=
  λ _, {| effects := http_Error "Not Implemented" StatusNotImplemented;
          result := Returned |}.

(** The handler [Handler.Register] gives the router for an endpoint;
    the [Middlewares] of a [DefaultEndpoint] is never nil. *)
Definition composed (ep : DefaultEndpoint) : httpHandler :=
  let middlewares := ep_Middlewares ep in
  let handler :=
    match ep_Handler ep with
    | Some fn => fn
    | None => notImplemented
    end in
  Chain middlewares handler.

(** A dispatch handler on the built-in router: the router its [router]
    field points to, and the handler itself. Requests are served by the
    handler with the router in the state it is in. *)
Record Mount : Type := MkMount {
  routes : BuiltinRouter httpHandler;
  fields : Handler
}.

Definition serving (s : Mount) : Handler := WithRouter (builtin (routes s)) (fields s).

Definition withRegistered (h : Handler) (rr : gmap string (gmap string bool)) : Handler :=
  {| router := router h; queryDecoder := queryDecoder h; notFound := notFound h;
     recoverer := recoverer h; bodyLimit := bodyLimit h; registeredRoutes := rr |}.

Definition registerEvent (ep : DefaultEndpoint) : Event :=
  WithData (NewEvent EventRegisterURL
              ("Registering URL: " ++ ep_URL ep ++ " " ++ ep_Method ep))
           (<["path" := AString (ep_URL ep)]>
              (<["method" := AString (ep_Method ep)]> ∅)).

(** One round of the loop of [Handler.Register]: the state afterwards
    and the event emitted. *)
Definition registerOne (s : Mount) (ep : DefaultEndpoint) : Mount * Event :=
  let handler := composed ep in
  let rt := Register (routes s) (ep_Method ep) (ep_URL ep) (Some handler) in
  let rr := registeredRoutes (fields s) in
  let mm := default ∅ (rr !! ep_URL ep) in
  ({| routes := rt;
      fields := withRegistered (fields s)
                  (<[ep_URL ep := <[ep_Method ep := true]> mm]> rr) |},
   registerEvent ep).

(** [Handler.Register] *)
Definition h_Register (s : Mount) (endpoints : list DefaultEndpoint)
  : Mount * list Event :=
  foldl (λ acc ep, let '(s', ev) := registerOne acc.1 ep in (s', (acc.2 ++ [ev])%list))
        (s, []) endpoints.

(** [Handler.Unregister] *)
Definition h_Unregister (s : Mount) (method path : string) : Mount :=
  let rt := Unregister (routes s) method path in
  let rr := registeredRoutes (fields s) in
  let rr' :=
    match rr !! path with
    | Some mm =>
        let mm := delete method mm in
        if (size mm =? 0)%nat then delete path rr else <[path := mm]> rr
    | None => rr
    end in
  {| routes := rt; fields := withRegistered (fields s) rr' |}.

(** [WithQueryDecoder] and [WithNotFound], the options of [NewHandler]
    not needed before. *)
Definition WithQueryDecoder (d : list (string * list string) → gmap string queryValue)
  : HandlerOption :=
  λ h, {| router := router h; queryDecoder := d; notFound := notFound h;
          recoverer := recoverer h; bodyLimit := bodyLimit h;
          registeredRoutes := registeredRoutes h |}.

Definition WithNotFound (nf : httpHandler) : HandlerOption :=
  λ h, {| router := router h; queryDecoder := queryDecoder h; notFound := nf;
          recoverer := recoverer h; bodyLimit := bodyLimit h;
          registeredRoutes := registeredRoutes h |}.

(** [QueryMap] and [RouteParams]: what a handler reads from the context
    of its request. *)
Definition QueryMap (r : Request) : option (gmap string queryValue) := ctxQueryMap r.
Definition RouteParams (r : Request) : option Params := ctxRouteParams r.


(** *** [pureapi.go] *)

(** [NewServer], with options that leave the router alone: the emitter
    of the facade drops every event. *)
Definition NewServer (opts : list HandlerOption) : Mount :=
  {| routes := NewBuiltinRouter; fields := NewHandler opts |}.

(** [Server.Get] and the like: the server afterwards, and the endpoint
    the registered endpoint returned holds. *)
Definition method_route (method : string) (s : Mount) (path : string)
    (fn : option httpHandler) : Mount * DefaultEndpoint :=
  let ep := ep_WithHandler (NewEndpoint path method) fn in
  ((h_Register s [ep]).1, ep).

Definition Get := method_route "GET".
Definition Post := method_route "POST".
Definition Put := method_route "PUT".
Definition Patch := method_route "PATCH".
Definition Delete := method_route "DELETE".

(** What the four [With...] methods of a registered endpoint do with the
    changed endpoint: the old route is unregistered, the new one
    registered. *)
Definition reregister (s : Mount) (old new : DefaultEndpoint) : Mount * DefaultEndpoint :=
  let s := h_Unregister s (ep_Method old) (ep_URL old) in
  ((h_Register s [new]).1, new).

Definition re_WithURL (s : Mount) (ep : DefaultEndpoint) (u : string) :=
  reregister s ep (ep_WithURL ep u).

Definition re_WithMethod (s : Mount) (ep : DefaultEndpoint) (m : string) :=
  reregister s ep (ep_WithMethod ep m).

Definition re_WithMiddlewares (s : Mount) (ep : DefaultEndpoint)
    (m : option DefaultMiddlewares) :=
  reregister s ep (ep_WithMiddlewares ep m).

Definition re_WithHandler (s : Mount) (ep : DefaultEndpoint) (h : option httpHandler) :=
  reregister s ep (ep_WithHandler ep h).

End Dispatch.

(** ** More vocabulary for the dispatch handler *)

Module ServerMore.

Import Router Server RouterSpec ServerSpec.


Definition is_write (e : effect) : bool :=
  match e with
  | Write _ => true
  | _ => false
  end.

(** No [Write] comes before the first [WriteHeader]. *)
Fixpoint status_first (es : list effect) : bool :=
  match es with
  | [] => true
  | WriteHeader _ :: _ => true
  | Write _ :: _ => false
  | _ :: es' => status_first es'
  end.

(** The test of [matchesPattern] for a parameter segment. *)
Definition param_test (patternPart : string) : bool :=
  Strings.HasPrefixByte patternPart ":"%char
  || (Strings.HasPrefixByte patternPart "{"%char
      && Strings.HasSuffixByte patternPart "}"%char).

(** A registered pattern that stands for the path: the path itself, or a
    pattern whose segments take it. *)
Definition stands_for (pat path : string) : Prop :=
  pat = path ∨ takes (compile pat) path.

(** The methods the registry of the handler has for a path. *)
Definition registered_for (h : Handler) (path method : string) : Prop :=
  ∃ pat mm, registeredRoutes h !! pat = Some mm
            ∧ stands_for pat path ∧ is_Some (mm !! method).

(** Fixtures: a router that cannot list its methods and matches
    nothing; a handler on it whose registry has GET for one path; a
    handler on the built-in router with the same registry. *)
Definition bareRouter : Router :=
  {| rMatch := λ _, None; rMethodsFor := None |}.

Definition getOnly : gmap string (gmap string bool) :=
  {["/x" := {["GET" := true]}]}.

Definition registryOnly : Handler :=
  Dispatch.withRegistered (NewHandler [WithRouter bareRouter]) getOnly.

Definition registryOnBuiltin : Handler :=
  Dispatch.withRegistered (NewHandler []) getOnly.

End ServerMore.

(** ** More vocabulary for the registration *)

Module DispatchMore.

Import Router Server Endpoint Dispatch RouterSpec.

(** The calls that change a mounted handler. *)
Inductive mountOp : Type :=
| DoRegister (endpoints : list DefaultEndpoint)
| DoUnregister (method path : string).

Definition apply_mountOp (s : Mount) (op : mountOp) : Mount :=
  match op with
  | DoRegister endpoints => (h_Register s endpoints).1
  | DoUnregister method path => h_Unregister s method path
  end.

Definition apply_mountOps (s : Mount) (ops : list mountOp) : Mount :=
  foldl apply_mountOp s ops.

(** The registry has the method for the path. *)
Definition tracked_route (s : Mount) (method path : string) : Prop :=
  is_Some (registeredRoutes (fields s) !! path ≫= (.!! method)).

(** The router has a route registered under the method and the pattern:
    an entry of that pattern when it has a parameter, else a handler in
    the exact table. *)
Definition router_route (s : Mount) (method pat : string) : Prop :=
  if hasParam pat
  then ∃ e, e ∈ entries_of (routes s) method ∧ pattern e = pat
  else is_Some (exact_at (routes s) method pat).

(** The registry and the router in step: they have the same routes, but
    for the empty method and the empty path, which only the registry
    takes; the registry keeps no path without a method and marks every
    method true. *)
Definition in_step (s : Mount) : Prop :=
  (∀ method path, method ≠ "" → path ≠ "" →
     tracked_route s method path ↔ router_route s method path)
  ∧ (∀ path mm, registeredRoutes (fields s) !! path = Some mm →
       mm ≠ ∅ ∧ ∀ method b, mm !! method = Some b → b = true).

(** The endpoint [Server.Get] and the like register. *)
Definition route_endpoint (method path : string) (fn : option httpHandler)
  : DefaultEndpoint :=
  ep_WithHandler (NewEndpoint path method) fn.

(** The entry [Register] makes of an endpoint with a parameterized URL. *)
Definition entry_of (ep : DefaultEndpoint) : routeEntry httpHandler :=
  {| pattern := ep_URL ep; segs := compile (ep_URL ep); h := composed ep |}.

End DispatchMore.

(** * Go's order on strings *)

Module SlicesProps.

Import Slices.

Lemma ascii_compare_refl (c : ascii) : Ascii.compare c c = Eq.
Proof. unfold Ascii.compare. apply N.compare_refl. Qed.

Lemma ascii_compare_lt_trans (a b c : ascii) :
  Ascii.compare a b = Lt → Ascii.compare b c = Lt → Ascii.compare a c = Lt.
Proof. unfold Ascii.compare. rewrite !N.compare_lt_iff. lia. Qed.

Lemma string_compare_refl (s : string) : String.compare s s = Eq.
Proof. induction s as [|c s IH]; [done|]. simpl. by rewrite ascii_compare_refl. Qed.

Lemma string_compare_lt_trans (a : string) : ∀ b c : string,
  String.compare a b = Lt → String.compare b c = Lt → String.compare a c = Lt.
Proof.
  induction a as [|a0 a IH]; intros [|b0 b] [|c0 c]; simpl; try done.
  destruct (Ascii.compare a0 b0) eqn:E1; try done;
    destruct (Ascii.compare b0 c0) eqn:E2; try done.
  - apply Ascii.compare_eq_iff in E1, E2. subst.
    rewrite ascii_compare_refl. apply IH.
  - apply Ascii.compare_eq_iff in E1. subst. by rewrite E2.
  - apply Ascii.compare_eq_iff in E2. subst. by rewrite E1.
  - by rewrite (ascii_compare_lt_trans _ _ _ E1 E2).
Qed.

#[global] Instance string_le_total : Total string_le.
Proof. intros a b. apply String.leb_total. Qed.

#[global] Instance string_le_antisymm : AntiSymm (=) string_le.
Proof. intros a b. apply String.leb_antisym. Qed.

#[global] Instance string_le_trans : Transitive string_le.
Proof.
  intros a b c. unfold string_le, String.leb.
  destruct (String.compare a b) eqn:E1; try done;
    destruct (String.compare b c) eqn:E2; try done; intros _ _.
  - apply String.compare_eq_iff in E1, E2. subst. by rewrite string_compare_refl.
  - apply String.compare_eq_iff in E1. subst. by rewrite E2.
  - apply String.compare_eq_iff in E2. subst. by rewrite E1.
  - by rewrite (string_compare_lt_trans _ _ _ E1 E2).
Qed.

(** Sorting does not depend on the order the elements come in, so not on
    the order in which Go happens to visit the set. *)
Lemma Sort_permutation (l1 l2 : list string) :
  l1 ≡ₚ l2 → Sort (Made l1) = Sort (Made l2).
Proof.
  intros Hp. simpl. f_equal.
  apply (Sorted_unique string_le).
  - apply Sorted_merge_sort; apply _.
  - apply Sorted_merge_sort; apply _.
  - by rewrite !merge_sort_Permutation.
Qed.

End SlicesProps.

(** * Properties of the router *)

Module RouterProps.

Import Router RouterSpec Slices SlicesProps.

Section WithHandler.

Context {Handler : Type}.

Implicit Types (r : BuiltinRouter Handler) (e : routeEntry Handler).
Implicit Types (entries : list (routeEntry Handler)).

Lemma String_eqb_decide (a b : string) : String.eqb a b = bool_decide (a = b).
Proof.
  destruct (String.eqb_spec a b) as [->|Hne].
  - by rewrite bool_decide_eq_true_2.
  - by rewrite bool_decide_eq_false_2.
Qed.

Lemma match_loop_drop sgs : ∀ i (parts : list string) (ps : Params),
  length (drop i parts) = length sgs →
  match_loop i sgs parts ps =
    if decide (Forall2 accepts sgs (drop i parts))
    then Some (foldl (λ ps sp, if isParam sp.1 then <[name sp.1 := sp.2]> ps else ps)
                     ps (zip sgs (drop i parts)))
    else None.
Proof.
  induction sgs as [|sg sgs IH]; intros i parts ps Hlen.
  - destruct (drop i parts) eqn:Hd; [|done].
    rewrite decide_True by constructor. done.
  - simpl in Hlen.
    assert (Hlt : (i < length parts)%nat) by (rewrite length_drop in Hlen; lia).
    destruct (lookup_lt_is_Some_2 parts i Hlt) as [pp Hpp].
    cbn [match_loop]. rewrite Hpp. rewrite (drop_S _ _ _ Hpp) in *.
    simpl in Hlen. injection Hlen as Hlen.
    specialize (IH (S i) parts).
    rewrite !String_eqb_decide.
    destruct (isParam sg) eqn:Hp.
    + case_bool_decide as Hpp0; simpl.
      * rewrite decide_False; [done|].
        intros HF. inversion HF as [|? ? ? ? Ha]; subst.
        unfold accepts in Ha. rewrite Hp in Ha. done.
      * rewrite IH by done.
        destruct (decide (Forall2 accepts sgs (drop (S i) parts))) as [HF|HF].
        -- rewrite decide_True; [by simpl; rewrite Hp|].
           constructor; [|done]. unfold accepts. by rewrite Hp.
        -- rewrite decide_False; [done|].
           intros HF'. by inversion HF'; subst.
    + case_bool_decide as Hlit; simpl.
      * rewrite IH by done.
        destruct (decide (Forall2 accepts sgs (drop (S i) parts))) as [HF|HF].
        -- rewrite decide_True; [by simpl; rewrite Hp|].
           constructor; [|done]. unfold accepts. by rewrite Hp.
        -- rewrite decide_False; [done|].
           intros HF'. by inversion HF'; subst.
      * rewrite decide_False; [done|].
        intros HF. inversion HF as [|? ? ? ? Ha]; subst.
        unfold accepts in Ha. rewrite Hp in Ha. done.
Qed.

(** [match] returns a map exactly for the paths the pattern takes, and
    then the parameters bound. *)
Lemma match_takes sgs path :
  match_ sgs path =
    if decide (takes sgs path) then Some (bindings sgs (splitPath path)) else None.
Proof.
  unfold match_, takes.
  destruct (Nat.eqb_spec (length (splitPath path)) (length sgs)) as [Hlen|Hlen]; simpl.
  - rewrite match_loop_drop by (by rewrite drop_0).
    rewrite drop_0. unfold bindings.
    destruct (decide (Forall2 accepts sgs (splitPath path))) as [HF|HF].
    + by rewrite decide_True.
    + rewrite decide_False; [done|]. by intros [_ ?].
  - rewrite decide_False; [done|]. intros [? _]. congruence.
Qed.

Lemma matchSegments_match sgs path : matchSegments sgs path = match_ sgs path.
Proof. reflexivity. Qed.

Lemma scan_first entries path :
  scan entries path =
    (λ ie, matched_of path ie.2) <$> list_find (qualifies path) entries.
Proof.
  induction entries as [|e entries IH]; [done|].
  simpl. rewrite match_takes. unfold qualifies at 1.
  destruct (decide (takes (segs e) path)) as [Ht|Ht]; [done|].
  rewrite IH. by destruct (list_find _ entries) as [[??]|].
Qed.


Lemma Register_param_eq r (method pat : string) (hd : Handler) :
  method ≠ "" → pat ≠ "" → hasParam pat = true →
  Register r method pat (Some hd)
  = {| exact := exact r;
       param := <[method := (entries_of r method
                             ++ [{| pattern := pat; segs := compile pat; h := hd |}])%list]>
                  (param r) |}.
Proof.
  intros Hm Hp Hhas. unfold Register.
  destruct (String.eqb_spec method "") as [|_]; [done|].
  destruct (String.eqb_spec pat "") as [|_]; [done|].
  by rewrite Hhas.
Qed.

Lemma Register_exact_eq r (method pat : string) (hd : Handler) :
  method ≠ "" → pat ≠ "" → hasParam pat = false →
  Register r method pat (Some hd)
  = {| exact := <[method := <[pat := hd]> (default ∅ (exact r !! method))]> (exact r);
       param := param r |}.
Proof.
  intros Hm Hp Hhas. unfold Register.
  destruct (String.eqb_spec method "") as [|_]; [done|].
  destruct (String.eqb_spec pat "") as [|_]; [done|].
  by rewrite Hhas.
Qed.

Lemma Register_invalid r (method pat : string) (hd : option Handler) :
  method = "" ∨ pat = "" ∨ hd = None →
  Register r method pat hd = r.
Proof.
  unfold Register. intros [-> | [-> | ->] ]; [ | | done].
  - by destruct hd.
  - destruct hd; [|done]. by rewrite orb_true_r.
Qed.

Lemma Match_unfold r req :
  Match r req =
    match exact_at r (Method req) (Path req) with
    | Some hd => Some {| mHandler := hd; mParams := Some ∅ |}
    | None => scan (entries_of r (Method req)) (Path req)
    end.
Proof. reflexivity. Qed.

(** C1. [Match] looks the method and the exact path up first and, on a
    hit, returns that handler with an empty parameter map. Otherwise the
    result is the first entry, in the order of the method's list, whose
    compiled pattern takes the path (same number of segments, literal
    segments equal, parameter segments on non-empty path segments), with
    the parameters it binds; with no such entry the result is nil. After
    registering /a/:x and then /a/:y for one method, /a/1 goes to the
    handler registered first. *)
Theorem Match_exact_then_first_qualifying r req (method : string) (h1 h2 : Handler) :
  let entries := entries_of r (Method req) in
  (∀ hd, exact_at r (Method req) (Path req) = Some hd →
     Match r req = Some {| mHandler := hd; mParams := Some ∅ |})
  ∧ (∀ i e, exact_at r (Method req) (Path req) = None →
       entries !! i = Some e → qualifies (Path req) e →
       (∀ j e', entries !! j = Some e' → (j < i)%nat → ¬ qualifies (Path req) e') →
       Match r req = Some (matched_of (Path req) e))
  ∧ (exact_at r (Method req) (Path req) = None →
       (∀ e, e ∈ entries → ¬ qualifies (Path req) e) →
       Match r req = None)
  ∧ (method ≠ "" → Method req = method → Path req = "/a/1" →
       Match (Register (Register NewBuiltinRouter method "/a/:x" (Some h1))
                       method "/a/:y" (Some h2)) req
       = Some {| mHandler := h1; mParams := Some {["x" := "1"]} |}).
Proof.
  intros entries. repeat split.
  - intros hd Hex. by rewrite Match_unfold, Hex.
  - intros i e Hex Hi Hq Hfirst. rewrite Match_unfold, Hex, scan_first.
    fold entries.
    assert (Hfind : list_find (qualifies (Path req)) entries = Some (i, e)).
    { apply list_find_Some. eauto. }
    by rewrite Hfind.
  - intros Hex Hnone. rewrite Match_unfold, Hex, scan_first. fold entries.
    assert (Hfind : list_find (qualifies (Path req)) entries = None).
    { apply list_find_None, Forall_forall. intros e He. by apply Hnone. }
    by rewrite Hfind.
  - intros Hm Hmeth Hpath. rewrite Match_unfold, Hmeth, Hpath.
    rewrite !Register_param_eq by done.
    unfold exact_at, entries_of. cbn [exact param NewBuiltinRouter].
    rewrite lookup_empty, !lookup_insert_eq, lookup_empty.
    reflexivity.
Qed.

(** C10. A match that [Match] returns never has a nil parameter map: on
    an exact hit it is a new empty map, otherwise the parameters bound by
    an entry of the method's list that takes the path. *)
Theorem Match_params_not_nil r req (m : Matched Handler) :
  Match r req = Some m →
  mParams m ≠ None
  ∧ (is_Some (exact_at r (Method req) (Path req)) → mParams m = Some ∅)
  ∧ (exact_at r (Method req) (Path req) = None →
     ∃ e, e ∈ entries_of r (Method req) ∧ qualifies (Path req) e
          ∧ mParams m = Some (bindings (segs e) (splitPath (Path req)))).
Proof.
  rewrite Match_unfold.
  destruct (exact_at r (Method req) (Path req)) as [hd|] eqn:Hex.
  - intros [= <-]. repeat split; done.
  - rewrite scan_first.
    destruct (list_find _ _) as [[i e]|] eqn:Hfind; [|done].
    simpl. intros [= <-]. apply list_find_Some in Hfind as (Hi & Hq & _).
    repeat split; [done|by intros [??]|].
    intros _. exists e. split; [|done].
    apply list_elem_of_lookup. eauto.
Qed.

(** *** Register *)

(** C3, as the code has it. A valid registration of a parameterized
    pattern appends a new entry at the end of the method's list, whether
    or not the list already has an entry of that pattern string: the
    entries there keep their places and handlers, the number of entries of
    that pattern string grows by one, and the other lists and the exact
    table stay as they were. *)
Theorem Register_param_appends r (method pat : string) (hd : Handler) :
  method ≠ "" → pat ≠ "" → hasParam pat = true →
  let r' := Register r method pat (Some hd) in
  entries_of r' method
    = (entries_of r method ++ [{| pattern := pat; segs := compile pat; h := hd |}])%list
  ∧ length (filter (λ e, pattern e = pat) (entries_of r' method))
    = S (length (filter (λ e, pattern e = pat) (entries_of r method)))
  ∧ (∀ method', method' ≠ method → entries_of r' method' = entries_of r method')
  ∧ exact r' = exact r.
Proof.
  intros Hm Hp Hhas r'.
  assert (Hr' : r' = {| exact := exact r;
                        param := <[method := (entries_of r method
                                   ++ [{| pattern := pat; segs := compile pat; h := hd |}])%list]>
                                   (param r) |}).
  { by apply Register_param_eq. }
  assert (Hentries : entries_of r' method
    = (entries_of r method ++ [{| pattern := pat; segs := compile pat; h := hd |}])%list).
  { rewrite Hr'. unfold entries_of at 1. simpl. by rewrite lookup_insert_eq. }
  repeat split.
  - done.
  - rewrite Hentries, filter_app, length_app. simpl.
    rewrite filter_cons_True by done. simpl. lia.
  - intros method' Hne. rewrite Hr'. unfold entries_of. simpl.
    by rewrite lookup_insert_ne.
  - by rewrite Hr'.
Qed.

(** *** Unregister *)

Lemma filter_all {A} (P : A → Prop) {decP : ∀ x, Decision (P x)} (l : list A) :
  (∀ x, x ∈ l → P x) → filter P l = l.
Proof.
  induction l as [|x l IH]; intros Hall; [done|].
  rewrite filter_cons_True by (apply Hall; left).
  f_equal. apply IH. intros y Hy. apply Hall. by right.
Qed.

Lemma exact_at_Unregister r (method pat method' pat' : string) :
  exact_at (Unregister r method pat) method' pat'
  = if decide (method' = method ∧ pat' = pat) then None else exact_at r method' pat'.
Proof.
  unfold exact_at, Unregister. simpl.
  destruct (exact r !! method) as [mm|] eqn:Hmm.
  - destruct (decide (method' = method)) as [->|Hne].
    + rewrite lookup_insert_eq, Hmm. simpl.
      destruct (decide (pat' = pat)) as [->|Hne'].
      * rewrite decide_True by done. apply lookup_delete_eq.
      * rewrite decide_False by (by intros [??]). by apply lookup_delete_ne.
    + rewrite lookup_insert_ne by done.
      by rewrite decide_False by (by intros [??]).
  - case_decide as Hd; [|done]. destruct Hd as [-> ->]. by rewrite Hmm.
Qed.

Lemma entries_of_Unregister r (method pat method' : string) :
  entries_of (Unregister r method pat) method'
  = if decide (method' = method)
    then filter (λ e, pattern e ≠ pat) (entries_of r method)
    else entries_of r method'.
Proof.
  unfold Unregister. unfold entries_of at 1. simpl. fold (entries_of r method).
  destruct (entries_of r method) as [|e0 entries] eqn:He.
  - simpl. case_decide as Hd; [|done]. subst. by fold (entries_of r method); rewrite He.
  - cbn [length Nat.ltb Nat.leb].
    destruct (filter (λ e, pattern e ≠ pat) (e0 :: entries)) as [|d dst] eqn:Hf.
    + simpl. case_decide as Hd.
      * subst. by rewrite lookup_delete_eq.
      * by rewrite lookup_delete_ne.
    + simpl. case_decide as Hd.
      * subst. by rewrite lookup_insert_eq.
      * by rewrite lookup_insert_ne.
Qed.

(** C9, as the code has it. [Unregister] removes the pattern from the
    exact table of the method and removes from the method's list every
    entry whose pattern string equals the argument; all other entries stay,
    in their order, and so do the tables of the other methods. A pair that
    was never registered leaves the router as it was. *)
Theorem Unregister_removes_all r (method pat : string) :
  let r' := Unregister r method pat in
  (∀ method' pat',
     exact_at r' method' pat'
     = if decide (method' = method ∧ pat' = pat) then None
       else exact_at r method' pat')
  ∧ entries_of r' method = filter (λ e, pattern e ≠ pat) (entries_of r method)
  ∧ (∀ method', method' ≠ method → entries_of r' method' = entries_of r method')
  ∧ (exact_at r method pat = None →
     (∀ e, e ∈ entries_of r method → pattern e ≠ pat) →
     r' = r).
Proof.
  intros r'. repeat split.
  - intros. apply exact_at_Unregister.
  - unfold r'. rewrite entries_of_Unregister. by rewrite decide_True.
  - intros method' Hne. unfold r'. rewrite entries_of_Unregister.
    by rewrite decide_False.
  - intros Hex Hpar. unfold r', Unregister.
    assert (Hexact : match exact r !! method with
                     | Some mm => <[method := delete pat mm]> (exact r)
                     | None => exact r
                     end = exact r).
    { unfold exact_at in Hex. destruct (exact r !! method) as [mm|] eqn:Hmm; [|done].
      simpl in Hex. rewrite delete_id by done. by apply insert_id. }
    rewrite Hexact. clear Hexact.
    fold (entries_of r method).
    assert (Hfilter : filter (λ e, pattern e ≠ pat) (entries_of r method)
                      = entries_of r method).
    { by apply filter_all. }
    rewrite Hfilter.
    destruct r as [ex pm]. simpl in *. f_equal.
    unfold entries_of in *. simpl in *.
    destruct (pm !! method) as [[|e0 entries]|] eqn:Hpm; simpl; try done.
    by apply insert_id.
Qed.

(** *** MethodsFor *)

Lemma is_Some_matchSegments sgs path :
  is_Some (matchSegments sgs path) ↔ takes sgs path.
Proof.
  rewrite matchSegments_match, match_takes.
  destruct (decide (takes sgs path)) as [Ht|Ht].
  - split; [done|]. intros _. by eexists.
  - split; [|done]. by intros [??].
Qed.

Lemma elem_of_collect_exact path (ex : gmap string (gmap string Handler))
    (set : gset string) (m : string) :
  m ∈ collect_exact path ex set
  ↔ m ∈ set ∨ ∃ table, ex !! m = Some table ∧ is_Some (table !! path).
Proof.
  unfold collect_exact. revert m.
  apply (map_fold_weak_ind
           (λ res mp, ∀ m, m ∈ res
              ↔ m ∈ set ∨ ∃ table, mp !! m = Some table ∧ is_Some (table !! path))).
  - intros m. split; [by left|]. intros [?|(t & Ht & _)]; [done|].
    by rewrite lookup_empty in Ht.
  - intros i x mp res Hi IH m.
    destruct (decide (is_Some (x !! path))) as [Hx|Hx].
    + rewrite elem_of_union, elem_of_singleton, IH. split.
      * intros [->|[?|(t & Ht & Hs)]]; [right|by left|right].
        -- exists x. by rewrite lookup_insert_eq.
        -- exists t. split; [|done].
           rewrite lookup_insert_ne; [done|]. intros ->. congruence.
      * intros [?|(t & Ht & Hs)]; [by right; left|].
        destruct (decide (i = m)) as [->|Hne]; [by left|].
        rewrite lookup_insert_ne in Ht by done. right; right. eauto.
    + rewrite IH. split.
      * intros [?|(t & Ht & Hs)]; [by left|right].
        exists t. split; [|done].
        rewrite lookup_insert_ne; [done|]. intros ->. congruence.
      * intros [?|(t & Ht & Hs)]; [by left|].
        destruct (decide (i = m)) as [->|Hne].
        -- rewrite lookup_insert_eq in Ht. by injection Ht as ->.
        -- rewrite lookup_insert_ne in Ht by done. right. eauto.
Qed.

Lemma elem_of_collect_entries path (method : string) entries (set : gset string)
    (m : string) :
  m ∈ foldl (λ set e,
               if decide (is_Some (matchSegments (segs e) path))
               then {[method]} ∪ set else set) set entries
  ↔ m ∈ set ∨ (m = method ∧ ∃ e, e ∈ entries ∧ qualifies path e).
Proof.
  revert set. induction entries as [|e entries IH]; intros set; simpl.
  - split; [by left|]. intros [?|(_ & e & He & _)]; [done|]. by inversion He.
  - rewrite IH. unfold qualifies.
    destruct (decide (is_Some (matchSegments (segs e) path))) as [Hm|Hm].
    + rewrite elem_of_union, elem_of_singleton. split.
      * intros [[->|?]|(-> & e' & He' & Hq)]; [right|by left|right].
        -- split; [done|]. exists e. split; [left|]. by apply is_Some_matchSegments.
        -- split; [done|]. exists e'. split; [by right|done].
      * intros [?|(-> & e' & He' & Hq)]; [by left; right|].
        by left; left.
    + split.
      * intros [?|(-> & e' & He' & Hq)]; [by left|right].
        split; [done|]. exists e'. split; [by right|done].
      * intros [?|(-> & e' & He' & Hq)]; [by left|].
        apply elem_of_cons in He' as [->|He'].
        -- by apply is_Some_matchSegments in Hq.
        -- right. eauto.
Qed.

Lemma elem_of_collect_param path (pm : gmap string (list (routeEntry Handler)))
    (set : gset string) (m : string) :
  m ∈ collect_param path pm set
  ↔ m ∈ set ∨ ∃ entries e, pm !! m = Some entries ∧ e ∈ entries ∧ qualifies path e.
Proof.
  unfold collect_param. revert m.
  apply (map_fold_weak_ind
           (λ res mp, ∀ m, m ∈ res
              ↔ m ∈ set ∨ ∃ entries e,
                  mp !! m = Some entries ∧ e ∈ entries ∧ qualifies path e)).
  - intros m. split; [by left|]. intros [?|(es & e & Ht & _)]; [done|].
    by rewrite lookup_empty in Ht.
  - intros i x mp res Hi IH m.
    rewrite elem_of_collect_entries, IH. split.
    + intros [[?|(es & e & Hes & He & Hq)]|(-> & e & He & Hq)]; [by left|right|right].
      * exists es, e. split; [|done].
        rewrite lookup_insert_ne; [done|]. intros ->. congruence.
      * exists x, e. by rewrite lookup_insert_eq.
    + intros [?|(es & e & Hes & He & Hq)]; [by left; left|].
      destruct (decide (i = m)) as [->|Hne].
      * rewrite lookup_insert_eq in Hes. injection Hes as ->. right. eauto.
      * rewrite lookup_insert_ne in Hes by done. left; right. eauto.
Qed.

Lemma elem_of_routed_set r path (m : string) :
  m ∈ routed_set r path ↔ routed r path m.
Proof.
  unfold routed_set, routed, exact_at, entries_of.
  rewrite elem_of_collect_param, elem_of_collect_exact. split.
  - intros [[?|(t & Ht & Hs)]|(es & e & Hes & He & Hq)].
    + set_solver.
    + left. by rewrite Ht.
    + right. exists e. by rewrite Hes.
  - intros [Hs|(e & He & Hq)].
    + left; right. destruct (exact r !! m) as [t|]; [|by destruct Hs]. eauto.
    + right. destruct (param r !! m) as [es|]; [|by inversion He]. eauto.
Qed.

Lemma filter_ext_in {A} (P Q : A → Prop) {decP : ∀ x, Decision (P x)}
    {decQ : ∀ x, Decision (Q x)} (l : list A) :
  (∀ x, x ∈ l → P x ↔ Q x) → filter P l = filter Q l.
Proof.
  induction l as [|x l IH]; intros Hext; [done|].
  rewrite !filter_cons.
  rewrite IH by (intros y Hy; apply Hext; by right).
  destruct (decide (P x)) as [HP|HP], (decide (Q x)) as [HQ|HQ]; try done.
  - apply Hext in HP; [done|left].
  - apply Hext in HQ; [done|left].
Qed.

Lemma take_ordered_loop (l : list string) : ∀ (o : list string) (S : gset string),
  NoDup l →
  foldl (λ st m,
           if decide (m ∈ st.2) then (append1 st.1 m, st.2 ∖ {[m]}) else st)
        (Made o, S) l
  = (Made (o ++ filter (.∈ S) l), S ∖ list_to_set l).
Proof.
  induction l as [|a l IH]; intros o S Hnd.
  - simpl. rewrite app_nil_r. f_equal. set_solver.
  - apply NoDup_cons in Hnd as [Ha Hnd]. simpl.
    destruct (decide (a ∈ S)) as [HaS|HaS].
    + unfold append1. simpl. rewrite IH by done.
      rewrite filter_cons_True by done.
      rewrite (filter_ext_in (.∈ S ∖ {[a]}) (.∈ S) l) by set_solver.
      rewrite <- app_assoc. simpl. f_equal. set_solver.
    + rewrite IH by done. rewrite filter_cons_False by done.
      f_equal. set_solver.
Qed.

Lemma NoDup_order : NoDup order.
Proof. apply (bool_decide_unpack (NoDup order)). vm_compute. exact I. Qed.

Lemma take_ordered_make (S : gset string) :
  take_ordered make S = (Made (filter (.∈ S) order), S ∖ list_to_set order).
Proof. unfold take_ordered, make. by rewrite take_ordered_loop by apply NoDup_order. Qed.

Lemma foldl_append1 {A} (l o : list A) :
  foldl append1 (Made o) l = Made (o ++ l).
Proof.
  revert o. induction l as [|x l IH]; intros o; simpl.
  - by rewrite app_nil_r.
  - unfold append1 at 2. simpl. rewrite IH. by rewrite <- app_assoc.
Qed.

Lemma append_Made {A} (a b : list A) : append (Made a) (Made b) = Made (a ++ b).
Proof. destruct b; unfold append; simpl; [by rewrite app_nil_r|done]. Qed.

Lemma MethodsFor_closed r path :
  MethodsFor r path = allow_list (allow_set (routed_set r path)).
Proof.
  unfold MethodsFor. fold (routed_set r path). fold (allow_set (routed_set r path)).
  rewrite take_ordered_make. unfold make. rewrite foldl_append1. simpl.
  by rewrite append_Made.
Qed.

Lemma elem_of_allow_set (U : gset string) (m : string) :
  m ∈ allow_set U
  ↔ m ∈ U ∨ (m = "HEAD" ∧ "GET" ∈ U) ∨ (m = "OPTIONS" ∧ ∃ m', m' ∈ U).
Proof.
  unfold allow_set.
  set (s := if decide ("GET" ∈ U) then {["HEAD"]} ∪ U else U).
  assert (Hs : ∀ x, x ∈ s ↔ x ∈ U ∨ (x = "HEAD" ∧ "GET" ∈ U)).
  { intros x. unfold s. case_decide; set_solver. }
  destruct (Nat.ltb_spec 0 (size s)) as [Hpos|Hzero].
  - apply size_pos_elem_of in Hpos as [y Hy].
    rewrite elem_of_union, elem_of_singleton, Hs. split.
    + intros [->|[?|?]]; [|by left|by right; left].
      right; right. split; [done|]. apply Hs in Hy as [?|[_ ?]]; eauto.
    + intros [?|[?|[-> _]]]; [by right; left|by right; right|by left].
  - assert (Hempty : s = ∅) by (apply leibniz_equiv, size_empty_inv; lia).
    rewrite Hs. split; [intros [?|?]; [by left|by right; left]|].
    intros [?|[?|[_ [m' Hm']]]]; [by left|by right|].
    assert (m' ∈ s) as Hin by (apply Hs; by left).
    rewrite Hempty in Hin. set_solver.
Qed.

Lemma allow_list_spec (S : gset string) :
  ∃ rest : list string,
    allow_list S = Made (filter (.∈ S) order ++ rest)
    ∧ Sorted string_le rest ∧ NoDup rest
    ∧ ∀ m, m ∈ rest ↔ m ∈ S ∧ m ∉ order.
Proof.
  exists (merge_sort string_le (elements (S ∖ list_to_set order))).
  split; [done|]. split; [apply Sorted_merge_sort; apply _|]. split.
  - rewrite merge_sort_Permutation. apply NoDup_elements.
  - intros m. rewrite merge_sort_Permutation, elem_of_elements.
    rewrite elem_of_difference, elem_of_list_to_set. done.
Qed.

(** One more registration adds the method it serves the path for. *)
Lemma routed_Register r path (m : string) (reg : string * string * option Handler) :
  routed (Register r reg.1.1 reg.1.2 reg.2) path m
  ↔ routed r path m ∨ serves path m reg.
Proof.
  destruct reg as [[method pat] [hd|]]; unfold serves; cbn [fst snd];
    [|rewrite Register_invalid by auto; naive_solver].
  destruct (decide (method = "")) as [->|Hm];
    [rewrite Register_invalid by auto; naive_solver|].
  destruct (decide (pat = "")) as [->|Hp];
    [rewrite Register_invalid by auto; naive_solver|].
  destruct (hasParam pat) eqn:Hhas.
  - rewrite Register_param_eq by done.
    unfold routed, exact_at, entries_of. simpl.
    destruct (decide (m = method)) as [->|Hne].
    + rewrite lookup_insert_eq. simpl. fold (entries_of r method). split.
      * intros [?|(e & He & Hq)]; [by left; left|].
        apply elem_of_app in He as [He|He].
        -- left; right. eauto.
        -- apply list_elem_of_singleton in He as ->. right. done.
      * intros [[?|(e & He & Hq)]|(_ & _ & _ & _ & Ht)]; [by left| |].
        -- right. exists e. split; [|done]. apply elem_of_app. by left.
        -- right. eexists. split; [apply elem_of_app; right; left|done].
    + rewrite lookup_insert_ne by done. naive_solver.
  - rewrite Register_exact_eq by done.
    unfold routed, exact_at, entries_of. simpl.
    destruct (decide (m = method)) as [->|Hne].
    + rewrite lookup_insert_eq. simpl.
      destruct (decide (pat = path)) as [->|Hne].
      * rewrite lookup_insert_eq. split; [intros _; by right|]. intros _. by left.
      * rewrite lookup_insert_ne by done.
        destruct (exact r !! method) as [mm|]; simpl; [naive_solver|].
        rewrite lookup_empty. naive_solver.
    + rewrite lookup_insert_ne by done. naive_solver.
Qed.

Lemma routed_RegisterAll regs : ∀ r path (m : string),
  routed (RegisterAll r regs) path m
  ↔ routed r path m ∨ ∃ reg, reg ∈ regs ∧ serves path m reg.
Proof.
  induction regs as [|reg regs IH]; intros r path m.
  - simpl. split; [by left|]. intros [?|(reg & Hr & _)]; [done|]. by inversion Hr.
  - simpl. rewrite IH, routed_Register. split.
    + intros [[?|?]|(reg' & Hr & Hs)]; [by left| |].
      * right. exists reg. split; [left|done].
      * right. exists reg'. split; [by right|done].
    + intros [?|(reg' & Hr & Hs)]; [by left; left|].
      apply elem_of_cons in Hr as [->|Hr]; [by left; right|].
      right. eauto.
Qed.

Lemma MethodsFor_routed r1 r2 path :
  (∀ m, routed r1 path m ↔ routed r2 path m) →
  MethodsFor r1 path = MethodsFor r2 path.
Proof.
  intros Hr. rewrite !MethodsFor_closed. do 2 f_equal.
  apply set_eq. intros m. by rewrite !elem_of_routed_set.
Qed.

(** C2. [MethodsFor] returns, for the set of the methods that have an
    exact or parameterized route for the path, with HEAD added when GET is
    in it and OPTIONS when it is not empty: first the members among
    OPTIONS, GET, HEAD, POST, PUT, PATCH, DELETE in that order, then the
    other members in the order of the strings. Registering the same routes
    in another order gives the same result; GET and POST on /x give
    OPTIONS, GET, HEAD, POST either way; and with no method routed the
    result is an empty slice that is not nil. *)
Theorem MethodsFor_deterministic r path (r0 : BuiltinRouter Handler)
    (regs1 regs2 : list (string * string * option Handler)) (hget hpost : Handler) :
  (∃ (S : gset string) (rest : list string),
      (∀ m, m ∈ S ↔ allowed (routed r path) m)
      ∧ MethodsFor r path = Made (filter (.∈ S) order ++ rest)
      ∧ Sorted string_le rest ∧ NoDup rest
      ∧ ∀ m, m ∈ rest ↔ m ∈ S ∧ m ∉ order)
  ∧ (regs1 ≡ₚ regs2 →
     MethodsFor (RegisterAll r0 regs1) path = MethodsFor (RegisterAll r0 regs2) path)
  ∧ MethodsFor (RegisterAll NewBuiltinRouter
                  [("GET", "/x", Some hget); ("POST", "/x", Some hpost)]) "/x"
    = Made ["OPTIONS"; "GET"; "HEAD"; "POST"]
  ∧ MethodsFor (RegisterAll NewBuiltinRouter
                  [("POST", "/x", Some hpost); ("GET", "/x", Some hget)]) "/x"
    = Made ["OPTIONS"; "GET"; "HEAD"; "POST"]
  ∧ ((∀ m, ¬ routed r path m) → MethodsFor r path = Made []).
Proof.
  split; [|split; [|split; [|split]]].
  - destruct (allow_list_spec (allow_set (routed_set r path)))
      as (rest & Heq & Hsorted & Hnd & Hrest).
    exists (allow_set (routed_set r path)), rest.
    split; [|by rewrite MethodsFor_closed].
    intros m. rewrite elem_of_allow_set. unfold allowed.
    rewrite !elem_of_routed_set.
    by setoid_rewrite elem_of_routed_set.
  - intros Hperm. apply MethodsFor_routed. intros m.
    rewrite !routed_RegisterAll. by setoid_rewrite Hperm.
  - vm_compute. reflexivity.
  - vm_compute. reflexivity.
  - intros Hnone. rewrite MethodsFor_closed.
    assert (Hempty : routed_set r path = ∅).
    { apply set_eq. intros m. rewrite elem_of_routed_set. set_solver. }
    rewrite Hempty. reflexivity.
Qed.

End WithHandler.

Lemma Match_exact_then_first_qualifying_witness :
  let r := RegisterAll NewBuiltinRouter
             [("GET", "/a/:x", Some 1%nat); ("GET", "/a/:y", Some 2%nat)] in
  exact_at r "GET" "/a/1" = None
  ∧ entries_of r "GET" !! 0%nat = Some (entry "/a/:x" 1)
  ∧ qualifies "/a/1" (entry "/a/:x" 1)
  ∧ Match r (request "GET" "/a/1")
    = Some {| mHandler := 1%nat; mParams := Some {["x" := "1"]} |}.
Proof.
  intros r.
  assert (Hex : exact_at r "GET" "/a/1" = None) by reflexivity.
  assert (H0 : entries_of r "GET" !! 0%nat = Some (entry "/a/:x" 1)) by reflexivity.
  assert (Hq : qualifies "/a/1" (entry "/a/:x" 1)).
  { apply (bool_decide_unpack (qualifies "/a/1" (entry "/a/:x" 1))).
    vm_compute. exact I. }
  destruct (Match_exact_then_first_qualifying r (request "GET" "/a/1") "GET" 1%nat 2%nat)
    as (_ & Hfirst & _ & _).
  split; [exact Hex|]. split; [exact H0|]. split; [exact Hq|].
  rewrite (Hfirst 0%nat (entry "/a/:x" 1) Hex H0 Hq); [reflexivity|].
  intros j e' _ Hj. inversion Hj.
Defined.

Lemma Match_params_not_nil_witness :
  Match twice (request "GET" "/a/1")
  = Some {| mHandler := 1%nat; mParams := Some {["x" := "1"]} |}
  ∧ mParams {| mHandler := 1%nat; mParams := Some ({["x" := "1"]} : Params) |} ≠ None.
Proof.
  assert (Hm : Match twice (request "GET" "/a/1")
               = Some {| mHandler := 1%nat; mParams := Some {["x" := "1"]} |})
    by reflexivity.
  split; [exact Hm|].
  exact (proj1 (Match_params_not_nil twice (request "GET" "/a/1") _ Hm)).
Defined.

Lemma MethodsFor_deterministic_witness :
  [("GET", "/x", Some 1%nat); ("POST", "/x", Some 2%nat)]
    ≡ₚ [("POST", "/x", Some 2%nat); ("GET", "/x", Some 1%nat)]
  ∧ MethodsFor (RegisterAll NewBuiltinRouter
                  [("GET", "/x", Some 1%nat); ("POST", "/x", Some 2%nat)]) "/x"
    = MethodsFor (RegisterAll NewBuiltinRouter
                    [("POST", "/x", Some 2%nat); ("GET", "/x", Some 1%nat)]) "/x"
  ∧ MethodsFor (NewBuiltinRouter : BuiltinRouter nat) "/missing" = Made [].
Proof.
  assert (Hperm : [("GET", "/x", Some 1%nat); ("POST", "/x", Some 2%nat)]
                    ≡ₚ [("POST", "/x", Some 2%nat); ("GET", "/x", Some 1%nat)])
    by apply Permutation_swap.
  split; [exact Hperm|]. split.
  - destruct (MethodsFor_deterministic NewBuiltinRouter "/x" NewBuiltinRouter
                [("GET", "/x", Some 1%nat); ("POST", "/x", Some 2%nat)]
                [("POST", "/x", Some 2%nat); ("GET", "/x", Some 1%nat)] 1%nat 2%nat)
      as (_ & Hsame & _).
    exact (Hsame Hperm).
  - destruct (MethodsFor_deterministic (NewBuiltinRouter : BuiltinRouter nat)
                "/missing" NewBuiltinRouter [] [] 1%nat 2%nat)
      as (_ & _ & _ & _ & Hnone).
    apply Hnone. intros m [Hex|(e & He & _)].
    + by destruct Hex.
    + inversion He.
Defined.

(** C3 fails on the code: the second registration of a pattern string
    does not replace the handler of the first, it adds a second entry, so
    the pattern string is twice in the list. *)
Lemma Register_duplicate_counterexample :
  entries_of twice "GET" = [entry "/a/:x" 1; entry "/a/:x" 2]
  ∧ ¬ at_most_once twice.
Proof.
  assert (He : entries_of twice "GET" = [entry "/a/:x" 1; entry "/a/:x" 2])
    by (vm_compute; reflexivity).
  split; [exact He|].
  intros Hone. specialize (Hone "GET"). rewrite He in Hone.
  apply NoDup_cons_1_1 in Hone. apply Hone. left.
Qed.

Lemma Register_param_appends_witness :
  hasParam "/a/:x" = true
  ∧ entries_of (Register (Register NewBuiltinRouter "GET" "/a/:x" (Some 1%nat))
                         "GET" "/a/:x" (Some 2%nat)) "GET"
    = (entries_of (Register NewBuiltinRouter "GET" "/a/:x" (Some 1%nat)) "GET"
       ++ [entry "/a/:x" 2])%list.
Proof.
  split; [reflexivity|].
  apply (Register_param_appends
           (Register NewBuiltinRouter "GET" "/a/:x" (Some 1%nat))
           "GET" "/a/:x" 2%nat);
    [discriminate | discriminate | reflexivity].
Defined.

(** C9 fails on the code: with the pattern string twice in the list,
    [Unregister] removes both entries, not the first only. *)
Lemma Unregister_first_only_counterexample :
  remove_first "/a/:x" (entries_of twice "GET") = [entry "/a/:x" 2]
  ∧ entries_of (Unregister twice "GET" "/a/:x") "GET" = []
  ∧ entries_of (Unregister twice "GET" "/a/:x") "GET"
    ≠ remove_first "/a/:x" (entries_of twice "GET").
Proof.
  assert (H1 : remove_first "/a/:x" (entries_of twice "GET") = [entry "/a/:x" 2])
    by (vm_compute; reflexivity).
  assert (H2 : entries_of (Unregister twice "GET" "/a/:x") "GET" = [])
    by (vm_compute; reflexivity).
  split; [exact H1|]. split; [exact H2|].
  rewrite H1, H2. discriminate.
Qed.

Lemma Unregister_removes_all_witness :
  exact_at twice "POST" "/never" = None
  ∧ entries_of twice "POST" = []
  ∧ Unregister twice "POST" "/never" = twice.
Proof.
  split; [reflexivity|]. split; [reflexivity|].
  apply (Unregister_removes_all twice "POST" "/never").
  - reflexivity.
  - intros e He. vm_compute in He. inversion He.
Defined.

End RouterProps.

(** * Properties of the tracking writer and the dispatch handler *)

Module ServerProps.

Import Router Server ServerSpec.


(** *** Reading the effects of a concatenation *)


Lemma statuses_app (a b : list effect) :
  statuses (a ++ b)%list = (statuses a ++ statuses b)%list.
Proof. apply omap_app. Qed.



Lemma headers_app (a b : list effect) :
  headers (a ++ b)%list = (headers a ++ headers b)%list.
Proof. apply List.filter_app. Qed.

(** *** The tracking writer, call by call *)

Lemma tw_play_cons w e es :
  tw_play w (e :: es)
  = ((tw_play (tw_step w e).1 es).1,
     ((tw_step w e).2 ++ (tw_play (tw_step w e).1 es).2)%list).
Proof.
  simpl. destruct (tw_step w e) as [w1 f1]. simpl.
  by destruct (tw_play w1 es) as [w2 f2].
Qed.

Lemma tw_step_cases w e :
  tw_step w e
  = match e with
    | WriteHeader code =>
        if wroteHeader w then (w, [])
        else ({| wroteHeader := true; bytesWritten := bytesWritten w |},
              [WriteHeader code])
    | Write data =>
        if wroteHeader w
        then ({| wroteHeader := true;
                 bytesWritten := bytesWritten w + Strings.len data |},
              [Write data])
        else ({| wroteHeader := true;
                 bytesWritten := bytesWritten w + Strings.len data |},
              [WriteHeader StatusOK; Write data])
    | _ => (w, [e])
    end.
Proof.
  destruct e; try reflexivity.
  unfold tw_step, tw_Write, tw_WriteHeader.
  by destruct (wroteHeader w) eqn:Hw; simpl; rewrite ?Hw.
Qed.

Lemma statuses_tw_play es : ∀ w,
  statuses (tw_play w es).2
  = if wroteHeader w then [] else option_list (first_status es).
Proof.
  induction es as [|e es IH]; intros w.
  - simpl. by destruct (wroteHeader w).
  - rewrite tw_play_cons, tw_step_cases. cbn [snd].
    destruct e; cbn [fst snd]; rewrite ?statuses_app.
    + rewrite IH. by destruct (wroteHeader w).
    + rewrite IH. by destruct (wroteHeader w).
    + destruct (wroteHeader w) eqn:Hw; cbn [fst snd]; rewrite IH; simpl;
        by rewrite ?Hw.
    + destruct (wroteHeader w) eqn:Hw; cbn [fst snd]; rewrite IH; simpl;
        by rewrite ?Hw.
    + rewrite IH. by destruct (wroteHeader w).
Qed.

Lemma body_of_tw_play es : ∀ w, body_of (tw_play w es).2 = body_of es.
Proof.
  induction es as [|e es IH]; intros w; [done|].
  rewrite tw_play_cons, tw_step_cases. cbn [snd].
  destruct e; cbn [fst snd]; try (simpl; by rewrite IH).
  - destruct (wroteHeader w); cbn [fst snd]; simpl; by rewrite IH.
  - destruct (wroteHeader w); cbn [fst snd]; simpl; by rewrite IH.
Qed.


Lemma headers_tw_play es : ∀ w, headers (tw_play w es).2 = headers es.
Proof.
  induction es as [|e es IH]; intros w; [done|].
  rewrite tw_play_cons, tw_step_cases. cbn [snd].
  destruct e; cbn [fst snd]; try (simpl; by rewrite IH).
  - destruct (wroteHeader w); cbn [fst snd]; simpl; by rewrite IH.
  - destruct (wroteHeader w); cbn [fst snd]; simpl; by rewrite IH.
Qed.


(** C6. Of the calls a handler makes on the tracking writer, from any
    state of it, at most one status code reaches the writer below: on a
    new writer it is the code of the first [WriteHeader] when that comes
    before any [Write], and 200, forwarded just before the data, when a
    [Write] comes first; once a status has gone out every later
    [WriteHeader] is dropped, that of the panic guard after partial output
    too. *)
Theorem tracking_forwards_one_status (w : trackingResponseWriter)
    (es : list effect) (code : Z) (data : string) (v : any) :
  statuses (tw_play newTrackingResponseWriter es).2 = option_list (first_status es)
  ∧ statuses (tw_play w es).2
    = (if wroteHeader w then [] else option_list (first_status es))
  ∧ (length (statuses (tw_play w es).2) ≤ 1)%nat
  ∧ (tw_play newTrackingResponseWriter [Write data]).2
    = [WriteHeader StatusOK; Write data]
  ∧ statuses (tw_play newTrackingResponseWriter
                ([WriteHeader code; Write data] ++ panicRecovery v)%list).2
    = [code].
Proof.
  split; [|split; [|split; [|split]]].
  - by rewrite statuses_tw_play.
  - apply statuses_tw_play.
  - rewrite statuses_tw_play.
    destruct (wroteHeader w); [simpl; lia|].
    destruct (first_status es); simpl; lia.
  - reflexivity.
  - by rewrite statuses_tw_play.
Qed.

(** *** The stages of [ServeHTTP] *)

Lemma ServeHTTP_guarded h r :
  passes_guard h r → ServeHTTP h r = serveRoutes h (guarded h r).
Proof.
  unfold passes_guard, ServeHTTP, guarded. intros Hg.
  destruct (Z.ltb_spec 0 (bodyLimit h)) as [Hpos|Hnon]; [|done].
  destruct (Z.ltb_spec (bodyLimit h) (ContentLength r)) as [Hbig|Hfit]; [lia|done].
Qed.

Lemma serveRoutes_matched h r (m : Matched httpHandler) :
  rMatch (router h) r = Some m → serveRoutes h r = served h r m.
Proof.
  intros Hm. unfold serveRoutes, serveMatch, served. rewrite Hm.
  destruct (String.eqb (Method r) "OPTIONS"); [done|].
  by rewrite bool_decide_eq_false_2.
Qed.

Lemma serveRoutes_fallback h r (m2 : Matched httpHandler) :
  Method r = "HEAD" →
  rMatch (router h) r = None →
  rMatch (router h) (withMethod r "GET") = Some m2 →
  serveRoutes h r
  = let r2 := withContext h (withMethod r "GET") (mParams m2) in
    tracked tw0 (recoverer h (λ _, discarded (mHandler m2 r2)) r2).
Proof.
  intros Hhead Hm Hm2. unfold serveRoutes, serveMatch.
  rewrite Hhead, Hm, Hm2. reflexivity.
Qed.



(** *** The discarding writer *)

Lemma body_of_discarded (es : list effect) : body_of (flat_map dw_step es) = "".
Proof. induction es as [|e es IH]; [done|]. by destruct e. Qed.

Lemma headers_discarded (es : list effect) :
  headers (flat_map dw_step es) = headers es.
Proof.
  induction es as [|e es IH]; [done|].
  destruct e; simpl; unfold headers in *; simpl; by rewrite ?IH.
Qed.

Lemma first_status_discarded (es : list effect) :
  first_status (flat_map dw_step es) = first_WriteHeader es.
Proof. induction es as [|e es IH]; [done|]. by destruct e. Qed.

(** *** Panic recovery *)




(** *** HEAD fallback *)

(** C7, as the code has it. A HEAD request that passes the body guard,
    with no route for HEAD and one for GET, is served by the handler of
    the GET route, under the recovery wrapper, on a request whose method
    is GET and on a writer that forwards the header and status calls to
    the tracking writer and drops every [Write]. When the handler returns,
    what reaches the transport is its calls without the writes: no body,
    its header writes, and the code of its first [WriteHeader] if it has
    one. *)
Theorem HEAD_fallback h r (m2 : Matched httpHandler) :
  passes_guard h r →
  Method r = "HEAD" →
  rMatch (router h) (guarded h r) = None →
  rMatch (router h) (withMethod (guarded h r) "GET") = Some m2 →
  let r2 := withContext h (withMethod (guarded h r) "GET") (mParams m2) in
  let b := mHandler m2 r2 in
  let out := ServeHTTP h r in
  Method r2 = "GET"
  ∧ out = tracked tw0 (recoverer h (λ _, discarded b) r2)
  ∧ (recoverer h = createRecoverer → result b = Returned →
     out = {| effects := (tw_play tw0 (flat_map dw_step (effects b))).2;
              result := Returned |}
     ∧ body_of (effects out) = ""
     ∧ headers (effects out) = headers (effects b)
     ∧ statuses (effects out) = option_list (first_WriteHeader (effects b))).
Proof.
  intros Hguard Hhead Hm Hm2 r2 b out.
  assert (Hout : out = tracked tw0 (recoverer h (λ _, discarded b) r2)).
  { unfold out. rewrite ServeHTTP_guarded by done.
    apply serveRoutes_fallback; [|done..].
    unfold guarded. by destruct (0 <? bodyLimit h). }
  split; [done|]. split; [done|].
  intros Hrec Hret. rewrite Hout, Hrec. unfold createRecoverer, tracked.
  cbn [discarded result effects]. rewrite Hret. cbn [discarded result effects].
  rewrite ?Hret. split; [done|]. split; [|split].
  - by rewrite body_of_tw_play, body_of_discarded.
  - by rewrite headers_tw_play, headers_discarded.
  - by rewrite statuses_tw_play, first_status_discarded.
Qed.

Lemma HEAD_fallback_witness :
  let h := onBuiltin [("GET", "/r", Some getResource)] in
  let r := request "HEAD" "/r" in
  rMatch (router h) (guarded h r) = None
  ∧ rMatch (router h) (withMethod (guarded h r) "GET")
    = Some {| mHandler := getResource; mParams := Some ∅ |}
  ∧ ServeHTTP h r
    = {| effects := [HeaderSet "X-Kind" "resource"; WriteHeader 200];
         result := Returned |}.
Proof.
  intros h r.
  assert (Hm : rMatch (router h) (guarded h r) = None) by reflexivity.
  assert (Hm2 : rMatch (router h) (withMethod (guarded h r) "GET")
                = Some {| mHandler := getResource; mParams := Some ∅ |})
    by reflexivity.
  assert (Hguard : passes_guard h r) by (right; discriminate).
  destruct (HEAD_fallback h r _ Hguard eq_refl Hm Hm2) as (_ & _ & Hret).
  destruct (Hret eq_refl eq_refl) as (Hout & _).
  split; [exact Hm|]. split; [exact Hm2|exact Hout].
Defined.

(** C7 fails on the code: when the GET handler panics, the HEAD response
    has the body of the recovery; and a handler that writes before it sets
    a status answers GET with the implicit 200 but HEAD with the status it
    set late. *)
Lemma HEAD_fallback_counterexample :
  body_of (effects (ServeHTTP (onBuiltin [("GET", "/r", Some boom)])
                              (request "HEAD" "/r")))
  = generic_500_body
  ∧ generic_500_body ≠ ""
  ∧ statuses (effects (ServeHTTP (onBuiltin [("GET", "/r", Some lateStatus)])
                                 (request "GET" "/r")))
    = [200]
  ∧ statuses (effects (ServeHTTP (onBuiltin [("GET", "/r", Some lateStatus)])
                                 (request "HEAD" "/r")))
    = [404].
Proof.
  split; [vm_compute; reflexivity|]. split; [discriminate|].
  split; vm_compute; reflexivity.
Qed.

(** *** OPTIONS *)



(** *** The body limit *)

Lemma Read_limited_payload (n i plen : Z) (s : list Byte.byte) :
  0 ≤ n → 0 < plen →
  Read (Limited {| mb_n := n; mb_i := i; mb_err := None |} (Payload s)) plen
  = match s with
    | [] => ([], Some EOF,
             Limited {| mb_n := n; mb_i := i; mb_err := Some EOF |} (Payload []))
    | _ :: _ =>
        let k := Z.to_nat (if n <? plen - 1 then n + 1 else plen) in
        let p := take k s in
        if Z.of_nat (length p) <=? n then
          (p, None,
           Limited {| mb_n := n - Z.of_nat (length p); mb_i := i; mb_err := None |}
                   (Payload (drop k s)))
        else
          (take (Z.to_nat n) p, Some (MaxBytesError i),
           Limited {| mb_n := 0; mb_i := i; mb_err := Some (MaxBytesError i) |}
                   (Payload (drop k s)))
    end.
Proof.
  intros Hn Hplen. cbn [Read mb_err mb_n mb_i].
  destruct (Z.eqb_spec plen 0) as [|_]; [lia|].
  destruct s as [|b s]; cbn [Read length].
  - destruct (Z.leb_spec (Z.of_nat 0) n) as [_|]; [|lia].
    by rewrite Z.sub_0_r.
  - reflexivity.
Qed.

(** Reading everything through a limiter of [n] bytes over a payload:
    the payload when it has at most [n] bytes, else its first [n] bytes
    and the error of the limiter. *)
Lemma ReadAll_limited (sizes : list Z) : ∀ (s acc : list Byte.byte) (n i : Z),
  0 ≤ n → Forall (λ plen, 0 < plen) sizes → (length s < length sizes)%nat →
  ReadAll sizes (Limited {| mb_n := n; mb_i := i; mb_err := None |} (Payload s)) acc
  = Some (if Z.of_nat (length s) <=? n
          then ((acc ++ s)%list, None)
          else ((acc ++ take (Z.to_nat n) s)%list, Some (MaxBytesError i))).
Proof.
  induction sizes as [|plen sizes IH]; intros s acc n i Hn Hpos Hfuel;
    [simpl in Hfuel; lia|].
  apply Forall_cons in Hpos as [Hplen Hpos].
  cbn [ReadAll]. rewrite Read_limited_payload by done.
  destruct s as [|b s].
  - destruct (Z.leb_spec (Z.of_nat (length (@nil Byte.byte))) n) as [_|Hc];
      [done|simpl in Hc; lia].
  - set (k := Z.to_nat (if n <? plen - 1 then n + 1 else plen)).
    assert (Hk : (1 ≤ k)%nat) by (unfold k; destruct (n <? plen - 1); lia).
    assert (Hs0 : (1 ≤ length (b :: s))%nat) by (simpl; lia).
    assert (Hfuel' : (length (b :: s) ≤ length sizes)%nat) by (simpl in *; lia).
    set (s0 := b :: s) in *.
    cbv zeta.
    assert (Hsplit : (take k s0 ++ drop k s0)%list = s0) by apply take_drop.
    assert (Hlen : length s0 = (length (take k s0) + length (drop k s0))%nat)
      by (rewrite <- Hsplit at 1; apply length_app).
    assert (Hlt : (length (take k s0) = Nat.min k (length s0))%nat)
      by apply length_take.
    destruct (Z.leb_spec (Z.of_nat (length (take k s0))) n) as [Hfit|Hover].
    + rewrite IH; [|lia|done|].
      2: { rewrite length_drop. lia. }
      f_equal.
      destruct (Z.leb_spec (Z.of_nat (length s0)) n) as [Hall|Hmore].
      * destruct (Z.leb_spec (Z.of_nat (length (drop k s0)))
                             (n - Z.of_nat (length (take k s0)))) as [_|]; [|lia].
        by rewrite <- app_assoc, Hsplit.
      * destruct (Z.leb_spec (Z.of_nat (length (drop k s0)))
                             (n - Z.of_nat (length (take k s0)))) as [|_]; [lia|].
        rewrite <- app_assoc. do 2 f_equal.
        assert (Hkk : length (take k s0) = k) by lia.
        rewrite Hkk, take_take_drop. f_equal. lia.
    + destruct (Z.leb_spec (Z.of_nat (length s0)) n) as [|_]; [lia|].
      do 3 f_equal. rewrite take_take. f_equal. lia.
Qed.

Lemma MaxBytesReader_positive (b : body) (n : Z) :
  0 < n → MaxBytesReader b n = Limited {| mb_n := n; mb_i := n; mb_err := None |} b.
Proof.
  intros Hn. unfold MaxBytesReader.
  destruct (Z.ltb_spec n 0) as [|_]; [lia|done].
Qed.

(** C5. With a body limit of N > 0 bytes: a request that declares more
    than N bytes is answered 413 and nothing else happens, whatever the
    router holds; a request that declares at most N bytes, or no length,
    goes on to the routes with its body behind a limiter of N bytes, which
    is the body a matched handler reads; reading a body through that
    limiter to its end gives the whole body and no error when it has at
    most N bytes, exactly N included, and the first N bytes and an error
    when it has more. With a limit of zero or less no request is refused
    for its length and the body is left as it came. *)
Theorem body_limit_guard h r (data : list Byte.byte) (sizes : list Z) :
  (0 < bodyLimit h → bodyLimit h < ContentLength r →
     ServeHTTP h r
     = {| effects := http_Error "Request body too large" StatusRequestEntityTooLarge;
          result := Returned |})
  ∧ (0 < bodyLimit h → ContentLength r ≤ bodyLimit h →
     let r' := withBody r (MaxBytesReader (Body r) (bodyLimit h)) in
     ServeHTTP h r = serveRoutes h r'
     ∧ ∀ m, rMatch (router h) r' = Some m →
            ServeHTTP h r
            = tracked tw0 (recoverer h (mHandler m) (withContext h r' (mParams m)))
            ∧ Body (withContext h r' (mParams m))
              = MaxBytesReader (Body r) (bodyLimit h))
  ∧ (0 < bodyLimit h → Forall (λ plen, 0 < plen) sizes →
     (length data < length sizes)%nat →
     ReadAll sizes (MaxBytesReader (Payload data) (bodyLimit h)) []
     = Some (if Z.of_nat (length data) <=? bodyLimit h
             then (data, None)
             else (take (Z.to_nat (bodyLimit h)) data,
                   Some (MaxBytesError (bodyLimit h)))))
  ∧ (bodyLimit h ≤ 0 → ServeHTTP h r = serveRoutes h r).
Proof.
  split; [|split; [|split]].
  - intros Hpos Hbig. unfold ServeHTTP.
    destruct (Z.ltb_spec 0 (bodyLimit h)) as [_|]; [|lia].
    destruct (Z.ltb_spec (bodyLimit h) (ContentLength r)) as [_|]; [|lia].
    reflexivity.
  - intros Hpos Hfit r'.
    assert (Hserve : ServeHTTP h r = serveRoutes h r').
    { rewrite ServeHTTP_guarded by (by right). unfold guarded.
      by destruct (Z.ltb_spec 0 (bodyLimit h)) as [_|]; [|lia]. }
    split; [done|]. intros m Hm. split; [|done].
    rewrite Hserve. by apply serveRoutes_matched.
  - intros Hpos Hsizes Hfuel. rewrite MaxBytesReader_positive by done.
    by rewrite ReadAll_limited by (done || lia).
  - intros Hoff. rewrite ServeHTTP_guarded by (by left). unfold guarded.
    by destruct (Z.ltb_spec 0 (bodyLimit h)) as [|_]; [lia|].
Qed.

Lemma body_limit_guard_witness :
  ServeHTTP limited4 (request_of_length "POST" "/echo" 5)
  = {| effects := http_Error "Request body too large" 413; result := Returned |}
  ∧ ServeHTTP limited4 (request_of_length "POST" "/echo" 4)
    = serveRoutes limited4
        (withBody (request_of_length "POST" "/echo" 4)
                  (MaxBytesReader (Payload []) 4))
  ∧ ReadAll [512; 1024; 2048; 4096; 8192; 16384] (MaxBytesReader (Payload (digits 4)) 4) []
    = Some (digits 4, None)
  ∧ ReadAll [512; 1024; 2048; 4096; 8192; 16384] (MaxBytesReader (Payload (digits 5)) 4) []
    = Some (digits 4, Some (MaxBytesError 4))
  ∧ ServeHTTP (WithBodyLimit 0 limited4) (request_of_length "POST" "/echo" 5)
    = serveRoutes (WithBodyLimit 0 limited4) (request_of_length "POST" "/echo" 5).
Proof.
  assert (Hsizes : Forall (λ plen, 0 < plen) [512; 1024; 2048; 4096; 8192; 16384])
    by (repeat constructor).
  split; [|split; [|split; [|split]]].
  - destruct (body_limit_guard limited4 (request_of_length "POST" "/echo" 5) [] [])
      as (Hbig & _).
    apply Hbig; reflexivity.
  - destruct (body_limit_guard limited4 (request_of_length "POST" "/echo" 4) [] [])
      as (_ & Hfit & _).
    assert (H44 : 4 ≤ 4) by discriminate.
    destruct (Hfit eq_refl H44) as [Hserve _]. exact Hserve.
  - destruct (body_limit_guard limited4 (request_of_length "POST" "/echo" 4)
                (digits 4) [512; 1024; 2048; 4096; 8192; 16384])
      as (_ & _ & Hread & _).
    apply (Hread eq_refl Hsizes). simpl. lia.
  - destruct (body_limit_guard limited4 (request_of_length "POST" "/echo" 5)
                (digits 5) [512; 1024; 2048; 4096; 8192; 16384])
      as (_ & _ & Hread & _).
    apply (Hread eq_refl Hsizes). simpl. lia.
  - destruct (body_limit_guard (WithBodyLimit 0 limited4)
                (request_of_length "POST" "/echo" 5) [] [])
      as (_ & _ & _ & Hoff).
    apply Hoff. discriminate.
Defined.

End ServerProps.

(** * More properties of the router *)

Module RouterExtra.

Import Router RouterSpec RouterMore Slices SlicesProps RouterProps.

(** *** Slashes *)

Lemma string_length_app (a b : string) :
  String.length (a ++ b) = (String.length a + String.length b)%nat.
Proof.
  induction a as [|c a IH]; [reflexivity|].
  change (String c a ++ b) with (String c (a ++ b)). simpl. by rewrite IH.
Qed.

Lemma TrimRight_app_slash (s : string) :
  Strings.TrimRight (s ++ "/") = Strings.TrimRight s.
Proof.
  induction s as [|c s IH]; [reflexivity|].
  change (String c s ++ "/") with (String c (s ++ "/")).
  cbn [Strings.TrimRight]. by rewrite IH.
Qed.

Lemma Trim_app_slash (s : string) : Strings.Trim (s ++ "/") = Strings.Trim s.
Proof. unfold Strings.Trim. by rewrite TrimRight_app_slash. Qed.

Lemma Trim_cons_slash (s : string) : Strings.Trim (String "/" s) = Strings.Trim s.
Proof.
  unfold Strings.Trim. cbn [Strings.TrimRight].
  destruct (Strings.TrimRight s) as [|c t] eqn:Ht; reflexivity.
Qed.

Lemma splitPath_Trim (p : string) : splitPath p = Strings.Split (Strings.Trim p).
Proof.
  unfold splitPath. destruct (String.eqb_spec p "/") as [->|_]; reflexivity.
Qed.

Lemma Split_nonempty (s : string) : Strings.Split s ≠ [].
Proof.
  induction s as [|c s IH]; [done|]. cbn [Strings.Split].
  destruct (Ascii.eqb c Strings.slash); [done|].
  by destruct (Strings.Split s).
Qed.

Lemma Split_no_slash (s : string) :
  Forall (λ p, has_slash p = false) (Strings.Split s).
Proof.
  induction s as [|c s IH]; [by repeat constructor|].
  cbn [Strings.Split]. destruct (Ascii.eqb c Strings.slash) eqn:Hc.
  - by constructor.
  - destruct (Strings.Split s) as [|p ps]; [by repeat constructor; simpl; rewrite Hc|].
    apply Forall_cons in IH as [Hp Hps]. constructor; [|done].
    simpl. by rewrite Hc.
Qed.

Section WithHandler.

Context {Handler : Type}.

Implicit Types (r : BuiltinRouter Handler) (e : routeEntry Handler).
Implicit Types (entries : list (routeEntry Handler)).

Lemma scan_ext entries (p1 p2 : string) :
  splitPath p1 = splitPath p2 → scan entries p1 = scan entries p2.
Proof.
  intros Hsplit. induction entries as [|e entries IH]; [done|].
  cbn [scan]. unfold match_. rewrite Hsplit, IH. done.
Qed.

(** X1. Leading and trailing slashes do not count for a parameterized
    route: a path, the path with one more slash in front and the path with
    one more slash behind split into the same segments, so [match] and the
    scan over the entries answer the same for them. The exact table is
    looked up by the path as it is written: on a router with only the
    exact route [pat], the path [pat/] is not matched. *)
Theorem slashes_ignored_by_match (sgs : list segment) entries (path : string)
    (method pat : string) (hd : Handler) (req : Request) :
  splitPath (path ++ "/") = splitPath path
  ∧ splitPath ("/" ++ path) = splitPath path
  ∧ match_ sgs (path ++ "/") = match_ sgs path
  ∧ match_ sgs ("/" ++ path) = match_ sgs path
  ∧ scan entries (path ++ "/") = scan entries path
  ∧ scan entries ("/" ++ path) = scan entries path
  ∧ (method ≠ "" → pat ≠ "" → hasParam pat = false →
     Method req = method → Path req = pat ++ "/" →
     Match (Register NewBuiltinRouter method pat (Some hd)) req = None).
Proof.
  assert (H1 : splitPath (path ++ "/") = splitPath path)
    by (by rewrite !splitPath_Trim, Trim_app_slash).
  assert (H2 : splitPath ("/" ++ path) = splitPath path).
  { rewrite !splitPath_Trim. apply (f_equal Strings.Split), Trim_cons_slash. }
  split; [done|]. split; [done|].
  split; [by unfold match_; rewrite H1|].
  split; [by unfold match_; rewrite H2|].
  split; [by apply scan_ext|]. split; [by apply scan_ext|].
  intros Hm Hp Hhas Hmeth Hpath.
  rewrite Register_exact_eq by done. rewrite Match_unfold, Hmeth, Hpath.
  unfold exact_at, entries_of. cbn [exact param NewBuiltinRouter].
  rewrite lookup_empty, lookup_insert_eq, lookup_empty. cbn.
  rewrite lookup_insert_ne, lookup_empty; [done|].
  intros Heq. apply (f_equal String.length) in Heq.
  rewrite string_length_app in Heq. simpl in Heq. lia.
Qed.

End WithHandler.

Lemma slashes_ignored_by_match_witness :
  hasParam "/users" = false
  ∧ Match (Register NewBuiltinRouter "GET" "/users" (Some 1%nat))
          (request "GET" ("/users" ++ "/")) = None.
Proof.
  split; [reflexivity|].
  destruct (slashes_ignored_by_match [] [] "" "GET" "/users" 1%nat
              (request "GET" ("/users" ++ "/")))
    as (_ & _ & _ & _ & _ & _ & Hmiss).
  apply Hmiss; [discriminate|discriminate|reflexivity|reflexivity|reflexivity].
Defined.

(** *** The parameters of a match *)

Section WithHandler.

Context {Handler : Type}.

Implicit Types (r : BuiltinRouter Handler) (e : routeEntry Handler).
Implicit Types (entries : list (routeEntry Handler)).

Lemma bindings_unfold (sgs : list segment) (parts : list string) :
  bindings sgs parts = foldl bind_step ∅ (zip sgs parts).
Proof. reflexivity. Qed.

Lemma bind_fold_keeps (zs : list (segment * string)) : ∀ (ps0 : Params) (k : string),
  is_Some (ps0 !! k) → is_Some (foldl bind_step ps0 zs !! k).
Proof.
  induction zs as [|[sg pp] zs IH]; intros ps0 k Hk; [done|].
  cbn [foldl]. apply IH. unfold bind_step. cbn [fst snd].
  destruct (isParam sg); [|done].
  destruct (decide (name sg = k)) as [->|Hne].
  - rewrite lookup_insert_eq. by eexists.
  - by rewrite lookup_insert_ne.
Qed.

Lemma bind_fold_is_Some (sgs : list segment) : ∀ (parts : list string) (ps0 : Params)
    (sg : segment),
  length sgs = length parts → sg ∈ sgs → isParam sg = true →
  is_Some (foldl bind_step ps0 (zip sgs parts) !! name sg).
Proof.
  induction sgs as [|sg0 sgs IH]; intros [|pp parts] ps0 sg Hlen Hin Hp;
    try (by inversion Hin); try done.
  cbn [zip zip_with foldl]. apply elem_of_cons in Hin as [->|Hin].
  - apply bind_fold_keeps. unfold bind_step. cbn [fst snd]. rewrite Hp.
    rewrite lookup_insert_eq. by eexists.
  - apply IH; [|done..]. simpl in Hlen. lia.
Qed.

Lemma bind_fold_lookup (sgs : list segment) : ∀ (parts : list string) (ps0 : Params)
    (k v : string),
  foldl bind_step ps0 (zip sgs parts) !! k = Some v →
  ps0 !! k = Some v
  ∨ ∃ i sg, sgs !! i = Some sg ∧ isParam sg = true ∧ name sg = k
            ∧ parts !! i = Some v.
Proof.
  induction sgs as [|sg0 sgs IH]; intros [|pp parts] ps0 k v Hk;
    try (by left).
  cbn [zip zip_with foldl] in Hk. apply IH in Hk as [Hk|(i & sg & Hi & Hp & Hn & Hv)].
  - unfold bind_step in Hk. cbn [fst snd] in Hk.
    destruct (isParam sg0) eqn:Hp0; [|by left].
    destruct (decide (name sg0 = k)) as [Heq|Hne].
    + rewrite Heq, lookup_insert_eq in Hk. injection Hk as ->.
      right. exists 0%nat, sg0. done.
    + rewrite lookup_insert_ne in Hk by done. by left.
  - right. exists (S i), sg. done.
Qed.

(** X2. When [match] returns a map, its keys are the names of the
    parameter segments of the pattern, and each value is the path segment
    at the place of a parameter segment of that name: it is not empty and
    has no slash in it. *)
Theorem match_binds_parameters (sgs : list segment) (path : string) (ps : Params) :
  match_ sgs path = Some ps →
  (∀ k, is_Some (ps !! k) ↔ ∃ sg, sg ∈ sgs ∧ isParam sg = true ∧ name sg = k)
  ∧ (∀ k v, ps !! k = Some v →
       v ≠ "" ∧ has_slash v = false
       ∧ ∃ i sg, sgs !! i = Some sg ∧ isParam sg = true ∧ name sg = k
                 ∧ splitPath path !! i = Some v).
Proof.
  rewrite match_takes. destruct (decide (takes sgs path)) as [[Hlen HF]|]; [|done].
  intros [= <-]. rewrite bindings_unfold. split.
  - intros k. split.
    + intros [v Hv]. apply bind_fold_lookup in Hv as [Hv|(i & sg & Hi & Hp & Hn & _)].
      * by rewrite lookup_empty in Hv.
      * exists sg. split; [|done]. apply list_elem_of_lookup. eauto.
    + intros (sg & Hin & Hp & <-). by apply bind_fold_is_Some.
  - intros k v Hv. apply bind_fold_lookup in Hv as [Hv|(i & sg & Hi & Hp & Hn & Hpart)].
    { by rewrite lookup_empty in Hv. }
    assert (Hacc : accepts sg v) by (eapply Forall2_lookup_lr; eauto).
    unfold accepts in Hacc. rewrite Hp in Hacc.
    split; [done|]. split; [|eauto 10].
    rewrite splitPath_Trim in Hpart.
    pose proof (Split_no_slash (Strings.Trim path)) as Hall.
    rewrite Forall_lookup in Hall. by apply (Hall i).
Qed.

End WithHandler.

Lemma match_binds_parameters_witness :
  match_ (compile "/user/:id") "/user/42" = Some {["id" := "42"]}
  ∧ "42" ≠ "" ∧ has_slash "42" = false.
Proof.
  assert (Hm : match_ (compile "/user/:id") "/user/42" = Some {["id" := "42"]})
    by reflexivity.
  split; [exact Hm|].
  destruct (match_binds_parameters _ _ _ Hm) as [_ Hvals].
  destruct (Hvals "id" "42" eq_refl) as (Hne & Hslash & _).
  split; [exact Hne|exact Hslash].
Defined.

(** *** The two notations of a parameter *)

Lemma last_byte_app_single (s : string) (c : ascii) :
  Strings.last_byte (s ++ String c "") = Some c.
Proof.
  induction s as [|a s IH]; [reflexivity|].
  change (String a s ++ String c "") with (String a (s ++ String c "")).
  cbn [Strings.last_byte]. rewrite IH.
  destruct s; reflexivity.
Qed.

Lemma substring_prefix (n t : string) :
  String.substring 0 (String.length n) (n ++ t) = n.
Proof.
  induction n as [|c n IH]; [by destruct t|].
  change (String c n ++ t) with (String c (n ++ t)). simpl. by rewrite IH.
Qed.

Lemma inner_braces (n : string) : Strings.inner ("{" ++ n ++ "}") = n.
Proof.
  unfold Strings.inner.
  change ("{" ++ n ++ "}") with (String "{" (n ++ "}")).
  cbn [String.length String.substring].
  rewrite string_length_app. simpl.
  replace (String.length n + 1 - 1)%nat with (String.length n) by lia.
  apply substring_prefix.
Qed.

(** X3. The colon and the brace notation name a parameter alike:
    [:n] and [{n}] are parameter segments and compile to the same segment,
    of name [n], and [{}] is the parameter of the empty name. A segment
    that opens a brace and does not close it is a literal. *)
Theorem parameter_notations (n : string) :
  isParamSeg (":" ++ n) = true
  ∧ isParamSeg ("{" ++ n ++ "}") = true
  ∧ compile_segment (":" ++ n) = param_segment n
  ∧ compile_segment ("{" ++ n ++ "}") = param_segment n
  ∧ (Strings.last_byte ("{" ++ n) ≠ Some "}"%char →
     compile_segment ("{" ++ n)
     = {| lit := "{" ++ n; name := ""; isParam := false |})
  ∧ ∀ pat, compile pat = compile_segment <$> splitPath pat.
Proof.
  assert (Hlast : Strings.last_byte ("{" ++ n ++ "}") = Some "}"%char).
  { change ("{" ++ n ++ "}") with (String "{" n ++ String "}" "").
    apply last_byte_app_single. }
  assert (Hlen : (1 <? Strings.len ("{" ++ n ++ "}")) = true).
  { unfold Strings.len. change ("{" ++ n ++ "}") with (String "{" (n ++ "}")).
    cbn [String.length]. rewrite string_length_app. simpl.
    apply Z.ltb_lt. lia. }
  assert (Hbrace : isParamSeg ("{" ++ n ++ "}") = true).
  { unfold isParamSeg. rewrite Hlen, Hlast.
    change ("{" ++ n ++ "}") with (String "{" (n ++ "}")).
    cbn [Strings.first_byte].
    rewrite (bool_decide_eq_true_2 (Some "{"%char = Some "{"%char)) by done.
    rewrite (bool_decide_eq_true_2 (Some "}"%char = Some "}"%char)) by done.
    apply orb_true_r. }
  split; [reflexivity|]. split; [exact Hbrace|]. split; [reflexivity|].
  split; [|split; [|reflexivity]].
  - unfold compile_segment, param_segment. rewrite Hbrace. f_equal.
    unfold trimDelims. rewrite Hlast.
    change ("{" ++ n ++ "}") with (String "{" (n ++ "}")) at 1 2.
    cbn [Strings.first_byte].
    rewrite (bool_decide_eq_false_2 (Some "{"%char = Some ":"%char)) by done.
    rewrite (bool_decide_eq_true_2 (Some "{"%char = Some "{"%char)) by done.
    rewrite (bool_decide_eq_true_2 (Some "}"%char = Some "}"%char)) by done.
    cbn [andb]. apply inner_braces.
  - intros Hopen. unfold compile_segment, isParamSeg.
    change ("{" ++ n) with (String "{" n) in *.
    cbn [Strings.first_byte].
    rewrite (bool_decide_eq_false_2 (Some "{"%char = Some ":"%char)) by done.
    rewrite (bool_decide_eq_false_2 (Strings.last_byte (String "{" n) = Some "}"%char))
      by done.
    by rewrite andb_false_r, andb_false_r.
Qed.

Lemma parameter_notations_witness :
  Strings.last_byte ("{" ++ "id") ≠ Some "}"%char
  ∧ compile_segment ("{" ++ "id") = {| lit := "{id"; name := ""; isParam := false |}.
Proof.
  assert (Hopen : Strings.last_byte ("{" ++ "id") ≠ Some "}"%char) by discriminate.
  split; [exact Hopen|].
  destruct (parameter_notations "id") as (_ & _ & _ & _ & Hlit & _).
  exact (Hlit Hopen).
Defined.

(** *** What a registration changes for [Match] *)

Section WithHandler.

Context {Handler : Type}.

Implicit Types (r : BuiltinRouter Handler) (e : routeEntry Handler).
Implicit Types (entries : list (routeEntry Handler)).

Lemma exact_at_Register_exact r (method pat method' pat' : string) (hd : Handler) :
  method ≠ "" → pat ≠ "" → hasParam pat = false →
  exact_at (Register r method pat (Some hd)) method' pat'
  = if decide (method' = method ∧ pat' = pat) then Some hd else exact_at r method' pat'.
Proof.
  intros Hm Hp Hhas. rewrite Register_exact_eq by done. unfold exact_at. simpl.
  destruct (decide (method' = method)) as [->|Hne].
  - rewrite lookup_insert_eq. simpl. destruct (decide (pat' = pat)) as [->|Hne'].
    + rewrite decide_True by done. apply lookup_insert_eq.
    + rewrite decide_False by (by intros [??]). rewrite lookup_insert_ne by done.
      by destruct (exact r !! method).
  - rewrite lookup_insert_ne by done.
    by rewrite decide_False by (by intros [??]).
Qed.

Lemma entries_of_Register_exact r (method pat method' : string) (hd : Handler) :
  method ≠ "" → pat ≠ "" → hasParam pat = false →
  entries_of (Register r method pat (Some hd)) method' = entries_of r method'.
Proof. intros Hm Hp Hhas. by rewrite Register_exact_eq. Qed.

Lemma exact_at_Register_param r (method pat method' pat' : string) (hd : Handler) :
  method ≠ "" → pat ≠ "" → hasParam pat = true →
  exact_at (Register r method pat (Some hd)) method' pat' = exact_at r method' pat'.
Proof. intros Hm Hp Hhas. by rewrite Register_param_eq. Qed.

Lemma entries_of_Register_param r (method pat method' : string) (hd : Handler) :
  method ≠ "" → pat ≠ "" → hasParam pat = true →
  entries_of (Register r method pat (Some hd)) method'
  = if decide (method' = method)
    then (entries_of r method
          ++ [{| pattern := pat; segs := compile pat; h := hd |}])%list
    else entries_of r method'.
Proof.
  intros Hm Hp Hhas. rewrite Register_param_eq by done.
  unfold entries_of at 1. simpl. case_decide as Hd.
  - subst. by rewrite lookup_insert_eq.
  - by rewrite lookup_insert_ne.
Qed.

Lemma scan_app entries1 entries2 (path : string) :
  scan (entries1 ++ entries2)%list path
  = match scan entries1 path with
    | Some mt => Some mt
    | None => scan entries2 path
    end.
Proof.
  induction entries1 as [|e entries1 IH]; [done|].
  simpl. by destruct (match_ (segs e) path).
Qed.

(** X4. A route without parameters, registered with a method, a
    pattern and a handler that are not empty or nil, is what [Match]
    returns for exactly that method and path, with an empty parameter
    map: it replaces a handler registered before for them and goes before
    every parameterized route. Every other request is matched as it was
    before. *)
Theorem Match_after_Register_exact r (method pat : string) (hd : Handler) req :
  method ≠ "" → pat ≠ "" → hasParam pat = false →
  Match (Register r method pat (Some hd)) req
  = if decide (Method req = method ∧ Path req = pat)
    then Some {| mHandler := hd; mParams := Some ∅ |}
    else Match r req.
Proof.
  intros Hm Hp Hhas. rewrite !Match_unfold.
  rewrite exact_at_Register_exact, entries_of_Register_exact by done.
  by case_decide.
Qed.

(** X5. A parameterized route, registered with a method, a pattern and
    a handler that are not empty or nil, never changes the result of a
    request that was matched before. It is what [Match] returns for the
    requests of its method that nothing matched before and whose path its
    pattern takes, with the parameters bound; all other requests stay
    unmatched. *)
Theorem Match_after_Register_param r (method pat : string) (hd : Handler) req :
  method ≠ "" → pat ≠ "" → hasParam pat = true →
  Match (Register r method pat (Some hd)) req
  = match Match r req with
    | Some mt => Some mt
    | None =>
        if decide (Method req = method ∧ takes (compile pat) (Path req))
        then Some {| mHandler := hd;
                     mParams := Some (bindings (compile pat) (splitPath (Path req))) |}
        else None
    end.
Proof.
  intros Hm Hp Hhas. rewrite !Match_unfold.
  rewrite exact_at_Register_param, entries_of_Register_param by done.
  destruct (exact_at r (Method req) (Path req)) as [hd0|]; [done|].
  destruct (decide (Method req = method)) as [Heq|Hne].
  - rewrite Heq, scan_app.
    destruct (scan (entries_of r method) (Path req)) as [mt|]; [done|].
    cbn [scan segs h]. rewrite match_takes.
    destruct (decide (takes (compile pat) (Path req))) as [Ht|Ht].
    + by rewrite decide_True.
    + by rewrite decide_False by (by intros [??]).
  - destruct (scan (entries_of r (Method req)) (Path req)) as [mt|]; [done|].
    by rewrite decide_False by (by intros [??]).
Qed.

End WithHandler.

Lemma Match_after_Register_exact_witness :
  Match (Register (Register NewBuiltinRouter "GET" "/a/:x" (Some 1%nat))
                  "GET" "/a/b" (Some 2%nat))
        (request "GET" "/a/b")
  = Some {| mHandler := 2%nat; mParams := Some ∅ |}.
Proof.
  rewrite (Match_after_Register_exact
             (Register NewBuiltinRouter "GET" "/a/:x" (Some 1%nat))
             "GET" "/a/b" 2%nat (request "GET" "/a/b"));
    [reflexivity|discriminate|discriminate|reflexivity].
Defined.

Lemma Match_after_Register_param_witness :
  Match (Register (Register NewBuiltinRouter "GET" "/a/b" (Some 1%nat))
                  "GET" "/a/:x" (Some 2%nat))
        (request "GET" "/a/b")
  = Some {| mHandler := 1%nat; mParams := Some ∅ |}.
Proof.
  rewrite (Match_after_Register_param
             (Register NewBuiltinRouter "GET" "/a/b" (Some 1%nat))
             "GET" "/a/:x" 2%nat (request "GET" "/a/b"));
    [reflexivity|discriminate|discriminate|reflexivity].
Defined.

(** *** [Unregister] after [Register] *)

Section WithHandler.

Context {Handler : Type}.

Implicit Types (r : BuiltinRouter Handler) (e : routeEntry Handler).
Implicit Types (entries : list (routeEntry Handler)).

Lemma routed_Match r (path m : string) :
  routed r path m ↔ is_Some (Match r (request m path)).
Proof.
  rewrite Match_unfold. change (Method (request m path)) with m.
  change (Path (request m path)) with path. unfold routed.
  destruct (exact_at r m path) as [hd|].
  { split; [by eexists|]. intros _. left. by eexists. }
  rewrite scan_first. split.
  - intros [[? [=]]|(e & He & Hq)].
    destruct (list_find (qualifies path) (entries_of r m)) as [[i e']|] eqn:Hf;
      [by eexists|].
    rewrite list_find_None, Forall_forall in Hf. by destruct (Hf e He).
  - intros Hs. right.
    destruct (list_find (qualifies path) (entries_of r m)) as [[i e']|] eqn:Hf;
      [|by destruct Hs].
    apply list_find_Some in Hf as (Hi & Hq & _).
    exists e'. split; [|done]. apply list_elem_of_lookup. eauto.
Qed.

Lemma same_routes_Match r1 r2 (req : Request) :
  same_routes r1 r2 → Match r1 req = Match r2 req.
Proof.
  intros Hs. rewrite !Match_unfold.
  destruct (Hs (Method req)) as [-> Hex]. by rewrite Hex.
Qed.

Lemma same_routes_MethodsFor r1 r2 (path : string) :
  same_routes r1 r2 → MethodsFor r1 path = MethodsFor r2 path.
Proof.
  intros Hs. apply MethodsFor_routed. intros m. unfold routed.
  destruct (Hs m) as [-> Hex]. by rewrite Hex.
Qed.

Lemma same_routes_Unregister_Register r (method pat : string) (hd : option Handler) :
  same_routes (Unregister (Register r method pat hd) method pat)
              (Unregister r method pat).
Proof.
  destruct hd as [hd|]; [|by rewrite Register_invalid by auto].
  destruct (decide (method = "")) as [->|Hm]; [by rewrite Register_invalid by auto|].
  destruct (decide (pat = "")) as [->|Hp]; [by rewrite Register_invalid by auto|].
  intros method'. rewrite !entries_of_Unregister.
  destruct (hasParam pat) eqn:Hhas.
  - split.
    + rewrite !entries_of_Register_param by done. case_decide as Hd; [|done].
      rewrite decide_True by done. rewrite filter_app.
      rewrite (filter_cons_False _ _ []) by (simpl; by intros ?).
      by rewrite filter_nil, app_nil_r.
    + intros pat'. rewrite !exact_at_Unregister.
      by rewrite exact_at_Register_param.
  - split.
    + by rewrite !entries_of_Register_exact.
    + intros pat'. rewrite !exact_at_Unregister.
      rewrite exact_at_Register_exact by done. by case_decide.
Qed.

Lemma same_routes_Unregister_fresh r (method pat : string) :
  exact_at r method pat = None →
  (∀ e, e ∈ entries_of r method → pattern e ≠ pat) →
  same_routes (Unregister r method pat) r.
Proof.
  intros Hex Hfresh method'. rewrite entries_of_Unregister. split.
  - case_decide as Hd; [|done]. subst. by apply filter_all.
  - intros pat'. rewrite exact_at_Unregister.
    case_decide as Hd; [|done]. by destruct Hd as [-> ->].
Qed.

Lemma Unregister_idemp r (method pat : string) :
  Unregister (Unregister r method pat) method pat = Unregister r method pat.
Proof.
  unfold Unregister. cbn [exact param]. f_equal.
  - destruct (exact r !! method) as [mm|] eqn:Hmm.
    + rewrite lookup_insert_eq, insert_insert_eq.
      by rewrite (delete_id (delete pat mm)) by apply lookup_delete_eq.
    + by rewrite Hmm.
  - destruct (default [] (param r !! method)) as [|e0 entries] eqn:He.
    { cbn [length Nat.ltb Nat.leb]. by rewrite He. }
    cbn [length Nat.ltb Nat.leb].
    destruct (filter (λ e, pattern e ≠ pat) (e0 :: entries)) as [|d dst] eqn:Hf.
    + cbn [length Nat.eqb]. by rewrite lookup_delete_eq.
    + assert (Hdd : filter (λ e, pattern e ≠ pat) (d :: dst) = d :: dst).
      { rewrite <- Hf. apply filter_all. intros x Hx.
        by apply list_elem_of_filter in Hx as [? _]. }
      cbn [length Nat.eqb]. rewrite lookup_insert_eq. cbn [default]. unfold id.
      rewrite Hdd. cbn [length Nat.eqb]. apply insert_insert_eq.
Qed.

(** X6. [Unregister] undoes [Register]: after a route is registered and
    then unregistered, every request is matched and the methods of every
    path are listed as if [Unregister] alone had been called, whatever the
    arguments of [Register]. When the router had no route of that method
    and pattern before, both are as in the router before the two calls.
    Unregistering a second time changes nothing. *)
Theorem Unregister_undoes_Register r (method pat : string) (hd : option Handler)
    (req : Request) (path : string) :
  let r' := Unregister (Register r method pat hd) method pat in
  Match r' req = Match (Unregister r method pat) req
  ∧ MethodsFor r' path = MethodsFor (Unregister r method pat) path
  ∧ (exact_at r method pat = None →
     (∀ e, e ∈ entries_of r method → pattern e ≠ pat) →
     Match r' req = Match r req ∧ MethodsFor r' path = MethodsFor r path)
  ∧ Unregister r' method pat = r'.
Proof.
  intros r'. pose proof (same_routes_Unregister_Register r method pat hd) as Hs.
  split; [by apply same_routes_Match|]. split; [by apply same_routes_MethodsFor|].
  split; [|apply Unregister_idemp].
  intros Hex Hfresh.
  pose proof (same_routes_Unregister_fresh r method pat Hex Hfresh) as Hs'.
  unfold r'. rewrite (same_routes_Match _ _ req Hs), (same_routes_MethodsFor _ _ path Hs).
  split; [by apply same_routes_Match|by apply same_routes_MethodsFor].
Qed.

(** *** The invariant of the two tables *)

Lemma well_formed_New : well_formed (@NewBuiltinRouter Handler).
Proof.
  split.
  - intros method entries Hl. cbn [param NewBuiltinRouter] in Hl.
    by rewrite lookup_empty in Hl.
  - intros method table pat hd Hl. cbn [exact NewBuiltinRouter] in Hl.
    by rewrite lookup_empty in Hl.
Qed.

Lemma well_formed_Register r (method pat : string) (hd : option Handler) :
  well_formed r → well_formed (Register r method pat hd).
Proof.
  intros Hwf. destruct hd as [hd|]; [|by rewrite Register_invalid by auto].
  destruct (decide (method = "")) as [->|Hm]; [by rewrite Register_invalid by auto|].
  destruct (decide (pat = "")) as [->|Hp]; [by rewrite Register_invalid by auto|].
  destruct Hwf as [Hpar Hex]. destruct (hasParam pat) eqn:Hhas.
  - rewrite Register_param_eq by done. split; [|exact Hex].
    cbn [param]. intros method' entries Hl.
    apply lookup_insert_Some in Hl as [[<- <-]|[Hne Hl]]; [|by apply Hpar].
    split; [done|]. split; [by destruct (entries_of r method)|].
    intros e He. apply elem_of_app in He as [He|He].
    + unfold entries_of in He. destruct (param r !! method) as [es|] eqn:Hes;
        [|by inversion He].
      by apply (Hpar method es).
    + apply list_elem_of_singleton in He as ->. done.
  - rewrite Register_exact_eq by done. split; [exact Hpar|].
    cbn [exact]. intros method' table pat' hd' Hl Ht.
    apply lookup_insert_Some in Hl as [[<- <-]|[Hne Hl]]; [|by eapply Hex].
    apply lookup_insert_Some in Ht as [[<- <-]|[Hne Ht]]; [done|].
    destruct (exact r !! method) as [mm|] eqn:Hmm; [by eapply Hex|].
    cbn [default] in Ht. by rewrite lookup_empty in Ht.
Qed.

Lemma well_formed_Unregister r (method pat : string) :
  well_formed r → well_formed (Unregister r method pat).
Proof.
  intros [Hpar Hex]. split.
  - unfold Unregister. cbn [param]. intros method' entries Hl.
    destruct (param r !! method) as [es|] eqn:Hes; [|by apply Hpar].
    cbn [default] in Hl. unfold id in Hl.
    destruct (Hpar method es Hes) as (Hm & Hne & Hok).
    destruct es as [|e0 es]; [done|]. cbn [length Nat.ltb Nat.leb] in Hl.
    destruct (filter (λ e, pattern e ≠ pat) (e0 :: es)) as [|d dst] eqn:Hf;
      cbn [length Nat.eqb] in Hl.
    + apply lookup_delete_Some in Hl as [_ Hl]. by apply Hpar.
    + apply lookup_insert_Some in Hl as [[<- <-]|[_ Hl]]; [|by apply Hpar].
      split; [done|]. split; [done|]. intros e He. apply Hok.
      rewrite <- Hf in He. by apply list_elem_of_filter in He as [_ ?].
  - unfold Unregister. cbn [exact]. intros method' table pat' hd Hl Ht.
    destruct (exact r !! method) as [mm|] eqn:Hmm; [|by eapply Hex].
    apply lookup_insert_Some in Hl as [[<- <-]|[_ Hl]]; [|by eapply Hex].
    apply lookup_delete_Some in Ht as [_ Ht]. by eapply Hex.
Qed.

Lemma well_formed_apply_ops (ops : list (routerOp (Handler := Handler))) : ∀ r,
  well_formed r → well_formed (apply_ops r ops).
Proof.
  induction ops as [|op ops IH]; intros r Hwf; [done|].
  apply IH. destruct op; [by apply well_formed_Register|by apply well_formed_Unregister].
Qed.

(** X7. Whatever calls of [Register] and [Unregister] are made on a new
    router, in whatever order and with whatever arguments, its tables stay
    well formed: no empty method and no empty pattern is stored; the exact
    table holds only patterns without a parameter; a method that has a
    list of parameterized entries has a list that is not empty, and each
    of its entries has a pattern with a parameter and the segments
    compiled from it. *)
Theorem tables_stay_well_formed (ops : list (routerOp (Handler := Handler))) :
  well_formed (apply_ops NewBuiltinRouter ops).
Proof.
  induction ops as [|op ops IH] using rev_ind; [apply well_formed_New|].
  unfold apply_ops in *. rewrite foldl_app. cbn [foldl].
  destruct op; [by apply well_formed_Register|by apply well_formed_Unregister].
Qed.

Lemma hasParam_compile (pat : string) :
  hasParam pat = true → ∃ sg, sg ∈ compile pat ∧ isParam sg = true.
Proof.
  unfold hasParam. intros Hex. apply existsb_exists in Hex as (p & Hin & Hp).
  exists (compile_segment p). split.
  - apply list_elem_of_fmap. exists p. split; [done|]. by apply list_elem_of_In.
  - unfold compile_segment. by rewrite Hp.
Qed.

Lemma bindings_nonempty (sgs : list segment) (path : string) :
  takes sgs path → (∃ sg, sg ∈ sgs ∧ isParam sg = true) →
  bindings sgs (splitPath path) ≠ ∅.
Proof.
  intros [Hlen _] (sg & Hin & Hp) Hempty.
  pose proof (bind_fold_is_Some sgs (splitPath path) ∅ sg Hlen Hin Hp) as [v Hv].
  rewrite bindings_unfold in Hempty. rewrite Hempty in Hv.
  by rewrite lookup_empty in Hv.
Qed.

Lemma scan_binds r (method path : string) (mt : Matched Handler) :
  well_formed r → scan (entries_of r method) path = Some mt →
  ∃ ps, mParams mt = Some ps ∧ ps ≠ ∅.
Proof.
  intros [Hpar _]. rewrite scan_first.
  destruct (list_find _ _) as [[i e]|] eqn:Hf; [|done].
  intros [= <-]. apply list_find_Some in Hf as (Hi & Hq & _).
  eexists. split; [reflexivity|]. cbn [snd]. apply bindings_nonempty; [done|].
  unfold entries_of in Hi. destruct (param r !! method) as [es|] eqn:Hes;
    [|by inversion Hi].
  destruct (Hpar _ _ Hes) as (_ & _ & Hok).
  destruct (Hok e) as (_ & Hhas & ->); [apply list_elem_of_lookup; eauto|].
  by apply hasParam_compile.
Qed.

(** X8. In a router built from a new one by calls of [Register] and
    [Unregister], the parameter map of a match is empty exactly when the
    match is an exact one: a parameterized route always binds at least one
    parameter. *)
Theorem Match_params_empty_iff_exact (ops : list (routerOp (Handler := Handler)))
    (req : Request) (mt : Matched Handler) :
  let r := apply_ops NewBuiltinRouter ops in
  Match r req = Some mt →
  ∃ ps, mParams mt = Some ps
        ∧ (ps = ∅ ↔ is_Some (exact_at r (Method req) (Path req))).
Proof.
  intros r. pose proof (well_formed_apply_ops ops _ well_formed_New) as Hwf.
  fold r in Hwf. rewrite Match_unfold.
  destruct (exact_at r (Method req) (Path req)) as [hd|].
  { intros [= <-]. exists ∅. split; [done|]. split; [by eexists|done]. }
  intros Hs. destruct (scan_binds r _ _ mt Hwf Hs) as (ps & Hps & Hne).
  exists ps. split; [done|]. split; [done|by intros [? [=]]].
Qed.

(** *** [MethodsFor] against [Match] *)

Lemma elem_of_allow_list (S : gset string) (m : string) :
  m ∈ elems (allow_list S) ↔ m ∈ S.
Proof.
  destruct (allow_list_spec S) as (rest & -> & _ & _ & Hrest).
  cbn [elems]. rewrite elem_of_app, list_elem_of_filter, Hrest.
  destruct (decide (m ∈ order)); naive_solver.
Qed.

Lemma NoDup_allow_list (S : gset string) : NoDup (elems (allow_list S)).
Proof.
  destruct (allow_list_spec S) as (rest & -> & _ & Hnd & Hrest).
  cbn [elems]. apply NoDup_app. split; [apply NoDup_filter, NoDup_order|].
  split; [|done]. intros m Hm Hr.
  apply list_elem_of_filter in Hm as [_ Hm]. apply Hrest in Hr as [_ Hr]. done.
Qed.

(** X9. [MethodsFor] agrees with [Match]: a method is listed for a path
    exactly when [Match] finds a route for a request of that method and
    path, or it is HEAD and [Match] finds one for GET, or it is OPTIONS and
    [Match] finds one for some method. No method is listed twice, and a
    list that is not empty starts with OPTIONS. *)
Theorem MethodsFor_agrees_with_Match r (path m : string) :
  (m ∈ elems (MethodsFor r path)
   ↔ allowed (λ m', is_Some (Match r (request m' path))) m)
  ∧ NoDup (elems (MethodsFor r path))
  ∧ ((∃ m', is_Some (Match r (request m' path))) →
     ∃ rest, MethodsFor r path = Made ("OPTIONS" :: rest)).
Proof.
  rewrite MethodsFor_closed. split; [|split; [apply NoDup_allow_list|]].
  - rewrite elem_of_allow_list, elem_of_allow_set. unfold allowed.
    rewrite !elem_of_routed_set, !routed_Match.
    by setoid_rewrite elem_of_routed_set; setoid_rewrite routed_Match.
  - intros [m' Hm']. apply routed_Match, elem_of_routed_set in Hm'.
    assert (Hopt : "OPTIONS" ∈ allow_set (routed_set r path)).
    { apply elem_of_allow_set. right; right. eauto. }
    unfold allow_list, order. rewrite filter_cons_True by done.
    by eexists.
Qed.

End WithHandler.

Lemma Unregister_undoes_Register_witness :
  Match (Unregister (Register NewBuiltinRouter "GET" "/a/:x" (Some 1%nat)) "GET" "/a/:x")
        (request "GET" "/a/1")
  = Match (@NewBuiltinRouter nat) (request "GET" "/a/1").
Proof.
  destruct (Unregister_undoes_Register (@NewBuiltinRouter nat) "GET" "/a/:x" (Some 1%nat)
              (request "GET" "/a/1") "/a/1") as (_ & _ & Hfresh & _).
  destruct Hfresh as [Hm _]; [reflexivity| |exact Hm].
  intros e He. vm_compute in He. by inversion He.
Defined.

Lemma Match_params_empty_iff_exact_witness :
  ∃ ps : Params,
    Some ({["x" := "1"]} : Params) = Some ps
    ∧ (ps = ∅ ↔ is_Some (exact_at
                           (apply_ops NewBuiltinRouter
                              [OpRegister "GET" "/a/:x" (Some 1%nat)])
                           "GET" "/a/1")).
Proof.
  assert (Hm : Match (apply_ops NewBuiltinRouter [OpRegister "GET" "/a/:x" (Some 1%nat)])
                     (request "GET" "/a/1")
               = Some {| mHandler := 1%nat; mParams := Some {["x" := "1"]} |})
    by reflexivity.
  exact (Match_params_empty_iff_exact
           [OpRegister "GET" "/a/:x" (Some 1%nat)] (request "GET" "/a/1")
           {| mHandler := 1%nat; mParams := Some {["x" := "1"]} |} Hm).
Defined.

Lemma MethodsFor_agrees_with_Match_witness :
  ∃ rest, MethodsFor (Register NewBuiltinRouter "GET" "/a/:x" (Some 1%nat)) "/a/1"
          = Made ("OPTIONS" :: rest).
Proof.
  destruct (MethodsFor_agrees_with_Match
              (Register NewBuiltinRouter "GET" "/a/:x" (Some 1%nat)) "/a/1" "GET")
    as (_ & _ & Hopt).
  apply Hopt. exists "GET". vm_compute. by eexists.
Defined.

End RouterExtra.

(** * More of the dispatch handler *)

Module ServerExtra.

Import Router Server RouterSpec ServerSpec RouterMore ServerMore.
Import Slices SlicesProps RouterProps ServerProps.

(** *** The accounting of the tracking writer *)




(** *** One status for each request *)

Lemma status_first_tw_play (es : list effect) : ∀ w,
  wroteHeader w = false → status_first (tw_play w es).2 = true.
Proof.
  induction es as [|e es IH]; intros w Hw; [done|].
  rewrite tw_play_cons, tw_step_cases. cbn [snd]. rewrite Hw.
  destruct e; cbn [fst snd app status_first]; try done; by apply IH.
Qed.

Lemma ServeHTTP_tracked (h : Handler) (r : Request) :
  ∃ b, ServeHTTP h r = tracked tw0 b.
Proof.
  unfold ServeHTTP, serveRoutes, serveMatch, serveUnmatched.
  repeat case_match; simplify_eq; by eexists.
Qed.

(** X11. Whatever the handler is configured with and whatever the
    routed handlers do, [ServeHTTP] sends at most one status code for a
    request, and no byte of a body before it. *)
Theorem ServeHTTP_one_status (h : Handler) (r : Request) :
  (length (statuses (effects (ServeHTTP h r))) ≤ 1)%nat
  ∧ status_first (effects (ServeHTTP h r)) = true.
Proof.
  destruct (ServeHTTP_tracked h r) as [b ->]. unfold tracked. cbn [effects]. split.
  - rewrite statuses_tw_play. cbn [tw0 newTrackingResponseWriter wroteHeader].
    destruct (first_status (effects b)); simpl; lia.
  - by apply status_first_tw_play.
Qed.

(** *** Where a panic can leave *)



(** *** The second pattern matcher *)

Lemma param_test_isParamSeg (p : string) : param_test p = isParamSeg p.
Proof.
  unfold param_test, isParamSeg, Strings.HasPrefixByte, Strings.HasSuffixByte.
  destruct p as [|c p]; [done|].
  cbn [Strings.first_byte].
  replace (0 <? Strings.len (String c p)) with true
    by (symmetry; apply Z.ltb_lt; unfold Strings.len; simpl; lia).
  cbn [andb].
  assert (Heq : ∀ a b : ascii, Ascii.eqb a b = bool_decide (Some a = Some b)).
  { intros a b. destruct (Ascii.eqb_spec a b) as [->|Hne].
    - by rewrite bool_decide_eq_true_2.
    - rewrite bool_decide_eq_false_2; [done|]. by intros [= ?]. }
  rewrite !Heq. f_equal.
  destruct p as [|c' p].
  - cbn [Strings.last_byte]. rewrite !Heq.
    replace (1 <? Strings.len (String c "")) with false by done. cbn [andb].
    destruct (decide (c = "{"%char)) as [->|Hne].
    + by rewrite andb_false_r.
    + rewrite (bool_decide_eq_false_2 (Some c = Some "{"%char)); [done|].
      by intros [= ?].
  - replace (1 <? Strings.len (String c (String c' p))) with true
      by (symmetry; apply Z.ltb_lt; unfold Strings.len; simpl; lia).
    cbn [andb]. f_equal.
    destruct (Strings.last_byte (String c (String c' p))) as [l|].
    + apply Heq.
    + done.
Qed.

Lemma bool_decide_is_Some {A} (o : option A) :
  bool_decide (is_Some o) = from_option (λ _, true) false o.
Proof.
  destruct o.
  - apply bool_decide_eq_true_2. by eexists.
  - apply bool_decide_eq_false_2. by intros [? [=]].
Qed.

Lemma matchesPattern_loop_match (pats : list string) : ∀ (i : nat) (parts : list string)
    (ps : Params),
  matchesPattern_loop i pats parts
  = from_option (λ _, true) false
      (match_loop i (compile_segment <$> pats) parts ps).
Proof.
  induction pats as [|p pats IH]; intros i parts ps; [done|].
  cbn [matchesPattern_loop fmap list_fmap match_loop].
  destruct (parts !! i) as [pp|]; [|done].
  fold (param_test p). rewrite param_test_isParamSeg.
  assert (Hi : isParam (compile_segment p) = isParamSeg p)
    by (unfold compile_segment; by destruct (isParamSeg p)).
  rewrite Hi. destruct (isParamSeg p) eqn:Hp.
  - destruct (String.eqb pp ""); [reflexivity|]. apply IH.
  - assert (Hl : lit (compile_segment p) = p)
      by (unfold compile_segment; by rewrite Hp).
    rewrite Hl. destruct (negb (String.eqb p pp)); [reflexivity|]. apply IH.
Qed.

Lemma matchesPattern_match (pat path : string) :
  matchesPattern pat path = bool_decide (is_Some (match_ (compile pat) path)).
Proof.
  rewrite bool_decide_is_Some.
  unfold matchesPattern, match_. rewrite <- !RouterExtra.splitPath_Trim.
  change (compile pat) with (compile_segment <$> splitPath pat).
  rewrite length_fmap, (Nat.eqb_sym (length (splitPath path))).
  destruct (length (splitPath pat) =? length (splitPath path))%nat; cbn [negb]; [|done].
  apply matchesPattern_loop_match.
Qed.

Lemma matchesPattern_takes (pat path : string) :
  matchesPattern pat path = true ↔ takes (compile pat) path.
Proof.
  rewrite matchesPattern_match, match_takes, bool_decide_eq_true.
  destruct (decide (takes (compile pat) path)); split; done.
Qed.

Lemma takes_itself (pat : string) : takes (compile pat) pat.
Proof.
  unfold takes. change (compile pat) with (compile_segment <$> splitPath pat).
  split; [apply length_fmap|].
  apply Forall2_fmap_l, Forall_Forall2_diag, Forall_forall. intros p _.
  unfold compose, accepts, compile_segment.
  destruct (isParamSeg p) eqn:Hp; cbn [isParam lit]; [|reflexivity].
  intros ->. discriminate Hp.
Qed.

(** X13. The pattern matcher of the dispatch handler and that of the
    router agree: [matchesPattern] holds of a pattern and a path exactly
    when [match] returns a map for the compiled pattern and the path, that
    is, when the pattern has as many segments as the path, its literal
    segments equal those of the path and its parameter segments stand at
    segments of the path that are not empty. Every pattern matches
    itself. *)
Theorem matchesPattern_agrees_with_match (pat path : string) :
  matchesPattern pat path = bool_decide (is_Some (match_ (compile pat) path))
  ∧ (matchesPattern pat path = true ↔ takes (compile pat) path)
  ∧ matchesPattern pat pat = true.
Proof.
  split; [apply matchesPattern_match|]. split; [apply matchesPattern_takes|].
  apply matchesPattern_takes, takes_itself.
Qed.

(** *** The two makers of the Allow list *)

Lemma set_fold_copy (S : gset string) :
  set_fold (λ m h, {[m]} ∪ h) (∅ : gset string) S = S.
Proof.
  apply (set_fold_ind_L (λ (res : gset string) (X : gset string), res = X)); [done|].
  intros x X res _ ->. done.
Qed.

Lemma stableAllow_closed (S : gset string) :
  stableAllow S = allow_list (allow_set S).
Proof.
  unfold stableAllow. rewrite set_fold_copy. fold (allow_set S).
  rewrite take_ordered_make. unfold make. rewrite foldl_append1. simpl.
  by rewrite append_Made.
Qed.

(** X14. [stableAllow] makes of a set of methods the list [MethodsFor]
    makes of the methods it collects: for the set of the methods routed
    for a path both give the same list. A method is in the list of
    [stableAllow] exactly when it is in the set, or is HEAD with GET in
    the set, or is OPTIONS with the set not empty; no method is listed
    twice. *)
Theorem stableAllow_agrees_with_MethodsFor (S : gset string) (m : string)
    (r : BuiltinRouter httpHandler) (path : string) :
  stableAllow (routed_set r path) = MethodsFor r path
  ∧ (m ∈ elems (stableAllow S)
     ↔ m ∈ S ∨ (m = "HEAD" ∧ "GET" ∈ S) ∨ (m = "OPTIONS" ∧ ∃ m', m' ∈ S))
  ∧ NoDup (elems (stableAllow S)).
Proof.
  rewrite !stableAllow_closed, MethodsFor_closed. split; [done|]. split.
  - by rewrite RouterExtra.elem_of_allow_list, elem_of_allow_set.
  - apply RouterExtra.NoDup_allow_list.
Qed.

(** *** 405 or 404 *)

Lemma has_method_false (mm : gmap string bool) (method : string) :
  negb (has_method mm method) = true ↔ mm !! method = None ∨ mm !! method = Some false.
Proof.
  unfold has_method. destruct (mm !! method) as [[|]|]; simpl; naive_solver.
Qed.

Lemma fold_found (rr : gmap string (gmap string bool)) (f : string → gmap string bool → bool) :
  map_fold (λ k v found, found || f k v) false rr = true
  ↔ ∃ k v, rr !! k = Some v ∧ f k v = true.
Proof.
  apply (map_fold_weak_ind
           (λ res (mp : gmap string (gmap string bool)),
              res = true ↔ ∃ k v, mp !! k = Some v ∧ f k v = true)).
  - split; [done|]. intros (k & v & Hk & _). by rewrite lookup_empty in Hk.
  - intros i x mp res Hi IH. rewrite orb_true_iff, IH. split.
    + intros [(k & v & Hk & Hf)|Hf].
      * exists k, v. split; [|done]. rewrite lookup_insert_ne; [done|].
        intros ->. congruence.
      * exists i, x. by rewrite lookup_insert_eq.
    + intros (k & v & Hk & Hf). destruct (decide (i = k)) as [->|Hne].
      * rewrite lookup_insert_eq in Hk. injection Hk as ->. by right.
      * rewrite lookup_insert_ne in Hk by done. left. eauto.
Qed.

Lemma isMethodNotAllowed_iff (h : Handler) (r : Request) :
  isMethodNotAllowed h r = true
  ↔ ∃ pat mm, registeredRoutes h !! pat = Some mm
              ∧ stands_for pat (Path r)
              ∧ has_method mm (Method r) = false.
Proof.
  unfold isMethodNotAllowed. rewrite orb_true_iff, fold_found. split.
  - intros [Hex|(pat & mm & Hl & Hf)].
    + destruct (registeredRoutes h !! Path r) as [mm|] eqn:Hl; [|done].
      exists (Path r), mm. split; [done|]. split; [by left|].
      by apply negb_true_iff.
    + apply andb_true_iff in Hf as [Hm Hn]. exists pat, mm. split; [done|].
      split; [right; by apply matchesPattern_takes|by apply negb_true_iff].
  - intros (pat & mm & Hl & Hs & Hm). right. exists pat, mm. split; [done|].
    apply andb_true_iff. split; [|by apply negb_true_iff].
    apply matchesPattern_takes. destruct Hs as [->|Ht]; [apply takes_itself|done].
Qed.

(** X15. A request that no route matched is answered 405 rather than
    handed to the not-found handler exactly when the registry of the
    handler has a pattern that is the path, or takes it segment by
    segment, and does not have the method of the request for it. *)
Theorem isMethodNotAllowed_registry (h : Handler) (r : Request) :
  (isMethodNotAllowed h r = true
   ↔ ∃ pat mm, registeredRoutes h !! pat = Some mm
               ∧ stands_for pat (Path r)
               ∧ has_method mm (Method r) = false)
  ∧ (isMethodNotAllowed h r = true →
     first_status (effects (serveUnmatched h r)) = Some StatusMethodNotAllowed)
  ∧ (isMethodNotAllowed h r = false →
     serveUnmatched h r = tracked tw0 (notFound h r)).
Proof.
  split; [apply isMethodNotAllowed_iff|]. unfold serveUnmatched. split; intros ->; [|done].
  by destruct (0 <? Slice.len (allowedMethods h (Path r))).
Qed.

Lemma fold_dom (rr : gmap string (gmap string bool)) (P : string → bool)
    (set : gset string) (m : string) :
  m ∈ map_fold (λ pat mm set, if P pat then dom mm ∪ set else set) set rr
  ↔ m ∈ set ∨ ∃ pat mm, rr !! pat = Some mm ∧ P pat = true ∧ is_Some (mm !! m).
Proof.
  revert m.
  apply (map_fold_weak_ind
           (λ (res : gset string) (mp : gmap string (gmap string bool)),
              ∀ m, m ∈ res
                   ↔ m ∈ set ∨ ∃ pat mm, mp !! pat = Some mm ∧ P pat = true
                                         ∧ is_Some (mm !! m))).
  - intros m. split; [by left|]. intros [?|(pat & mm & Hl & _)]; [done|].
    by rewrite lookup_empty in Hl.
  - intros i x mp res Hi IH m.
    assert (Hold : (∃ pat mm, mp !! pat = Some mm ∧ P pat = true ∧ is_Some (mm !! m))
                   → ∃ pat mm, <[i:=x]> mp !! pat = Some mm ∧ P pat = true
                               ∧ is_Some (mm !! m)).
    { intros (pat & mm & Hl & HP & Hm). exists pat, mm. split; [|done].
      rewrite lookup_insert_ne; [done|]. intros ->. congruence. }
    destruct (P i) eqn:HPi.
    + rewrite elem_of_union, elem_of_dom, IH. split.
      * intros [Hx|[?|Hex]]; [|by left|right; by apply Hold].
        right. exists i, x. by rewrite lookup_insert_eq.
      * intros [?|(pat & mm & Hl & HP & Hm)]; [by right; left|].
        destruct (decide (i = pat)) as [->|Hne].
        -- rewrite lookup_insert_eq in Hl. injection Hl as ->. by left.
        -- rewrite lookup_insert_ne in Hl by done. right; right. eauto 10.
    + rewrite IH. split.
      * intros [?|Hex]; [by left|right; by apply Hold].
      * intros [?|(pat & mm & Hl & HP & Hm)]; [by left|].
        destruct (decide (i = pat)) as [->|Hne]; [congruence|].
        rewrite lookup_insert_ne in Hl by done. right. eauto 10.
Qed.

(** X16. On a router that cannot list its methods, the Allow list is
    made from the registry: a method is listed for a path exactly when
    the registry has it for a pattern that is the path or takes it, or it
    is HEAD and GET is so registered, or it is OPTIONS and some method is.
    On a router that can, the list is the router's. *)
Theorem allowedMethods_from_registry (h : Handler) (path m : string)
    (mf : string → slice string) :
  (rMethodsFor (router h) = None →
   (m ∈ elems (allowedMethods h path) ↔ allowed (registered_for h path) m))
  ∧ (rMethodsFor (router h) = Some mf → allowedMethods h path = mf path).
Proof.
  unfold allowedMethods. split; intros ->; [|done].
  rewrite stableAllow_closed, RouterExtra.elem_of_allow_list, elem_of_allow_set.
  assert (Hset : ∀ m',
    m' ∈ map_fold (λ pat mm set,
                     if String.eqb pat path || matchesPattern pat path
                     then dom mm ∪ set else set)
                  (match registeredRoutes h !! path with
                   | Some mm => dom mm
                   | None => ∅
                   end) (registeredRoutes h)
    ↔ registered_for h path m').
  { intros m'. rewrite fold_dom. unfold registered_for, stands_for. split.
    - intros [Hin|(pat & mm & Hl & HP & Hm)].
      + destruct (registeredRoutes h !! path) as [mm|] eqn:Hl; [|set_solver].
        apply elem_of_dom in Hin. exists path, mm. split; [done|]. split; [by left|done].
      + exists pat, mm. split; [done|]. split; [|done].
        apply orb_true_iff in HP as [Heq|Hmp].
        * left. by apply String.eqb_eq.
        * right. by apply matchesPattern_takes.
    - intros (pat & mm & Hl & Hs & Hm). right. exists pat, mm. split; [done|].
      split; [|done]. apply orb_true_iff. destruct Hs as [->|Ht].
      + left. apply String.eqb_refl.
      + right. by apply matchesPattern_takes. }
  unfold allowed. rewrite !Hset. by setoid_rewrite Hset.
Qed.

Lemma isMethodNotAllowed_registry_witness :
  first_status (effects (serveUnmatched registryOnBuiltin (request "POST" "/x")))
  = Some StatusMethodNotAllowed.
Proof.
  destruct (isMethodNotAllowed_registry registryOnBuiltin (request "POST" "/x"))
    as (_ & H405 & _).
  apply H405. reflexivity.
Defined.

Lemma allowedMethods_from_registry_witness :
  "HEAD" ∈ elems (allowedMethods registryOnly "/x")
  ↔ allowed (registered_for registryOnly "/x") "HEAD".
Proof.
  destruct (allowedMethods_from_registry registryOnly "/x" "HEAD" (λ _, Nil))
    as [Hreg _].
  apply Hreg. reflexivity.
Defined.

(** *** What a handler finds in the context of its request *)

Lemma len_params_pos (ps : Params) : (0 <? len_params (Some ps)) = true ↔ ps ≠ ∅.
Proof.
  unfold len_params. rewrite Z.ltb_lt. split.
  - intros Hpos ->. rewrite map_size_empty in Hpos. lia.
  - intros Hne. destruct (size ps) eqn:Hs; [|lia].
    by apply map_size_empty_iff in Hs.
Qed.

(** X17. A handler reached through a route of the built-in router finds
    the decoded query of the request in its context, and its route
    parameters exactly when the route is a parameterized one: then the
    map is the one [Match] bound and is not empty. The handler of an exact
    route finds what the context held before, nothing on a fresh
    request. *)
Theorem handler_reads_context (ops : list (routerOp (Handler := httpHandler)))
    (h : Handler) (r : Request) (m : Matched httpHandler) :
  let rt := apply_ops NewBuiltinRouter ops in
  let rq := withContext h r (mParams m) in
  router h = builtin rt →
  Match rt r = Some m →
  serveRoutes h r = tracked tw0 (recoverer h (mHandler m) rq)
  ∧ Dispatch.QueryMap rq = Some (queryDecoder h (Query r))
  ∧ (is_Some (exact_at rt (Method r) (Path r)) →
     Dispatch.RouteParams rq = ctxRouteParams r)
  ∧ (exact_at rt (Method r) (Path r) = None →
     ∃ ps, Dispatch.RouteParams rq = Some ps ∧ mParams m = Some ps ∧ ps ≠ ∅).
Proof.
  intros rt rq Hrt Hm. split; [|split; [done|]].
  { apply serveRoutes_matched. by rewrite Hrt. }
  pose proof (RouterExtra.well_formed_apply_ops ops _ RouterExtra.well_formed_New)
    as Hwf.
  fold rt in Hwf. rewrite Match_unfold in Hm.
  unfold Dispatch.RouteParams, rq, withContext. cbn [ctxRouteParams].
  destruct (exact_at rt (Method r) (Path r)) as [hd|].
  - injection Hm as <-. split; [done|]. by intros [=].
  - destruct (RouterExtra.scan_binds rt _ _ m Hwf Hm) as (ps & Hps & Hne).
    split; [by intros [? [=]]|]. intros _. exists ps. rewrite Hps.
    rewrite (proj2 (len_params_pos ps) Hne). done.
Qed.

Lemma handler_reads_context_witness :
  ∃ ps, Dispatch.RouteParams
          (withContext (onBuiltin [("GET", "/a/:x", Some getResource)])
             (request "GET" "/a/1") (Some {["x" := "1"]}))
        = Some ps
        ∧ Some ({["x" := "1"]} : Params) = Some ps ∧ ps ≠ ∅.
Proof.
  assert (Hm : Match (apply_ops NewBuiltinRouter
                        [OpRegister "GET" "/a/:x" (Some getResource)])
                     (request "GET" "/a/1")
               = Some {| mHandler := getResource; mParams := Some {["x" := "1"]} |})
    by reflexivity.
  destruct (handler_reads_context [OpRegister "GET" "/a/:x" (Some getResource)]
              (onBuiltin [("GET", "/a/:x", Some getResource)])
              (request "GET" "/a/1")
              {| mHandler := getResource; mParams := Some {["x" := "1"]} |}
              eq_refl Hm) as (_ & _ & _ & Hparam).
  apply Hparam. reflexivity.
Defined.

End ServerExtra.

(** * Middlewares, stacks and endpoints *)

Module EndpointExtra.

Import Server Endpoint.

(** *** The order of a chain *)

Lemma Chain_loop_take (ms : list Middleware) : ∀ (n : nat) (h : httpHandler),
  (n ≤ length ms)%nat →
  Chain_loop n ms h = foldr (λ mw next, mw next) h (take n ms).
Proof.
  induction n as [|i IH]; intros h Hn; [done|].
  cbn [Chain_loop]. destruct (ms !! i) as [m|] eqn:Hm.
  - rewrite IH by lia. rewrite (take_S_r ms i m Hm), foldr_app. done.
  - apply lookup_ge_None in Hm. unfold Middleware in *. lia.
Qed.

Lemma Chain_foldr (ms : list Middleware) (h : httpHandler) :
  Chain (NewMiddlewares ms) h = foldr (λ mw next, mw next) h ms.
Proof.
  unfold Chain. cbn [middlewares NewMiddlewares].
  rewrite Chain_loop_take by done. by rewrite firstn_all.
Qed.

(** X18. [Chain] wraps the handler in the middlewares from the last to
    the first, so that the first middleware of the list is the outermost:
    a request goes through the middlewares in the order of the list. No
    middleware leaves the handler as it is, and the chain of [Add] is the
    chain of the receiver around the chain of the middlewares added. *)
Theorem Chain_first_is_outermost (ms ms' : list Middleware) (m : Middleware)
    (h : httpHandler) :
  Chain (NewMiddlewares ms) h = foldr (λ mw next, mw next) h ms
  ∧ Chain (NewMiddlewares []) h = h
  ∧ Chain (NewMiddlewares (m :: ms)) h = m (Chain (NewMiddlewares ms) h)
  ∧ middlewares (Add (NewMiddlewares ms) ms') = (ms ++ ms')%list
  ∧ Chain (Add (NewMiddlewares ms) ms') h
    = Chain (NewMiddlewares ms) (Chain (NewMiddlewares ms') h).
Proof.
  split; [apply Chain_foldr|]. split; [done|].
  split; [by rewrite !Chain_foldr|]. split; [done|].
  unfold Add. cbn [middlewares NewMiddlewares app].
  by rewrite !Chain_foldr, foldr_app.
Qed.

(** *** The middlewares of a stack *)

Lemma collect_middlewares (ws : list DefaultWrapper) : ∀ acc : list Middleware,
  foldl (λ ms w, ms ++ [middleware w])%list acc ws
  = (acc ++ (middleware <$> ws))%list.
Proof.
  induction ws as [|w ws IH]; intros acc; simpl.
  - by rewrite app_nil_r.
  - rewrite IH. by rewrite <- app_assoc.
Qed.

(** X19. The middlewares of a stack are those of its wrappers, in the
    order of the wrappers, so the wrapper at the front of the stack is the
    outermost around a handler, and the one [AddWrapper] adds, at the
    back, the innermost. *)
Theorem stack_order_is_chain_order (s : DefaultStack) (w : DefaultWrapper)
    (h : httpHandler) :
  middlewares (stack_Middlewares s) = middleware <$> wrappers s
  ∧ Chain (stack_Middlewares s) h
    = foldr (λ wr next, middleware wr next) h (wrappers s)
  ∧ Chain (stack_Middlewares (AddWrapper s w)) h
    = Chain (stack_Middlewares s) (middleware w h).
Proof.
  assert (Hm : ∀ s, stack_Middlewares s = NewMiddlewares (middleware <$> wrappers s)).
  { intros s'. unfold stack_Middlewares. by rewrite collect_middlewares. }
  rewrite !Hm. split; [done|]. rewrite !Chain_foldr. split.
  - by rewrite foldr_fmap.
  - cbn [AddWrapper wrappers]. by rewrite fmap_app, foldr_app.
Qed.

(** *** Inserting into a stack and removing from it *)

Lemma find_ID_found (wanted : string) (pre : list DefaultWrapper) : ∀ (t : DefaultWrapper)
    (post : list DefaultWrapper) (i : nat),
  id t = wanted → Forall (λ x, id x ≠ wanted) pre →
  find_ID wanted (pre ++ t :: post) i = Some (i + length pre)%nat.
Proof.
  induction pre as [|x pre IH]; intros t post i Ht Hpre.
  - simpl. rewrite Ht, String.eqb_refl. f_equal. lia.
  - apply Forall_cons in Hpre as [Hx Hpre]. simpl.
    destruct (String.eqb_spec (id x) wanted) as [|_]; [done|].
    rewrite IH by done. f_equal. lia.
Qed.

Lemma find_ID_missing (wanted : string) (ws : list DefaultWrapper) : ∀ i : nat,
  Forall (λ x, id x ≠ wanted) ws → find_ID wanted ws i = None.
Proof.
  induction ws as [|x ws IH]; intros i Hws; [done|].
  apply Forall_cons in Hws as [Hx Hws]. simpl.
  destruct (String.eqb_spec (id x) wanted) as [|_]; [done|]. by apply IH.
Qed.

Lemma find_ID_cases (wanted : string) (ws : list DefaultWrapper) :
  (∃ pre t post, ws = (pre ++ t :: post)%list ∧ id t = wanted
                 ∧ Forall (λ x, id x ≠ wanted) pre)
  ∨ Forall (λ x, id x ≠ wanted) ws.
Proof.
  induction ws as [|x ws IH]; [by right|].
  destruct (decide (id x = wanted)) as [Hx|Hx].
  - left. exists [], x, ws. done.
  - destruct IH as [(pre & t & post & -> & Ht & Hpre)|Hws].
    + left. exists (x :: pre), t, post. split; [done|]. split; [done|].
      by apply Forall_cons.
    + right. by apply Forall_cons.
Qed.

Lemma take_middle {A} (pre : list A) (t : A) (post : list A) :
  take (length pre + 1) (pre ++ t :: post) = (pre ++ [t])%list
  ∧ drop (length pre + 1) (pre ++ t :: post) = post.
Proof.
  rewrite (cons_middle t pre post), app_assoc.
  assert (Hl : length (pre ++ [t]) = (length pre + 1)%nat)
    by (rewrite length_app; simpl; lia).
  split; [by apply take_app_length'|by apply drop_app_length'].
Qed.

Lemma InsertBefore_found (s : DefaultStack) (w : DefaultWrapper)
    (pre : list DefaultWrapper) (t : DefaultWrapper) (post : list DefaultWrapper) :
  wrappers s = (pre ++ t :: post)%list → Forall (λ x, id x ≠ id t) pre →
  InsertBefore s (id t) w = ({| wrappers := pre ++ w :: t :: post |}, true).
Proof.
  intros Hs Hpre. unfold InsertBefore. rewrite Hs, find_ID_found by done.
  cbn [Nat.add]. by rewrite take_app_length, drop_app_length.
Qed.

Lemma InsertAfter_found (s : DefaultStack) (w : DefaultWrapper)
    (pre : list DefaultWrapper) (t : DefaultWrapper) (post : list DefaultWrapper) :
  wrappers s = (pre ++ t :: post)%list → Forall (λ x, id x ≠ id t) pre →
  InsertAfter s (id t) w = ({| wrappers := pre ++ t :: w :: post |}, true).
Proof.
  intros Hs Hpre. unfold InsertAfter. rewrite Hs, find_ID_found by done.
  cbn [Nat.add]. destruct (take_middle pre t post) as [-> ->].
  by rewrite <- app_assoc.
Qed.

Lemma Remove_found (s : DefaultStack) (pre : list DefaultWrapper) (t : DefaultWrapper)
    (post : list DefaultWrapper) :
  wrappers s = (pre ++ t :: post)%list → Forall (λ x, id x ≠ id t) pre →
  Remove s (id t) = ({| wrappers := pre ++ post |}, true).
Proof.
  intros Hs Hpre. unfold Remove. rewrite Hs, find_ID_found by done.
  cbn [Nat.add]. destruct (take_middle pre t post) as [_ ->].
  by rewrite take_app_length.
Qed.

(** X20. [InsertBefore] and [InsertAfter] put the wrapper next to the
    first wrapper of the wanted ID, before or after it, keep every other
    wrapper in its place and return true; when no wrapper has the ID the
    wrapper goes to the end of the stack and they return false. Either
    way the stack has one wrapper more. *)
Theorem Insert_next_to_first (s : DefaultStack) (wanted : string) (w : DefaultWrapper) :
  (∀ pre t post,
     wrappers s = (pre ++ t :: post)%list → id t = wanted →
     Forall (λ x, id x ≠ wanted) pre →
     InsertBefore s wanted w = ({| wrappers := pre ++ w :: t :: post |}, true)
     ∧ InsertAfter s wanted w = ({| wrappers := pre ++ t :: w :: post |}, true))
  ∧ (Forall (λ x, id x ≠ wanted) (wrappers s) →
     InsertBefore s wanted w = (AddWrapper s w, false)
     ∧ InsertAfter s wanted w = (AddWrapper s w, false))
  ∧ length (wrappers (InsertBefore s wanted w).1) = S (length (wrappers s))
  ∧ length (wrappers (InsertAfter s wanted w).1) = S (length (wrappers s)).
Proof.
  assert (Hfound : ∀ pre t post,
     wrappers s = (pre ++ t :: post)%list → id t = wanted →
     Forall (λ x, id x ≠ wanted) pre →
     InsertBefore s wanted w = ({| wrappers := pre ++ w :: t :: post |}, true)
     ∧ InsertAfter s wanted w = ({| wrappers := pre ++ t :: w :: post |}, true)).
  { intros pre t post Hs <- Hpre.
    split; [by apply InsertBefore_found|by apply InsertAfter_found]. }
  assert (Hmissing : Forall (λ x, id x ≠ wanted) (wrappers s) →
     InsertBefore s wanted w = (AddWrapper s w, false)
     ∧ InsertAfter s wanted w = (AddWrapper s w, false)).
  { intros Hws. unfold InsertBefore, InsertAfter. by rewrite find_ID_missing. }
  split; [exact Hfound|]. split; [exact Hmissing|].
  destruct (find_ID_cases wanted (wrappers s)) as [(pre & t & post & Hs & Ht & Hpre)|Hws].
  - destruct (Hfound pre t post Hs Ht Hpre) as [-> ->]. cbn [fst wrappers].
    rewrite Hs, !length_app. simpl. lia.
  - destruct (Hmissing Hws) as [-> ->]. cbn [fst wrappers AddWrapper].
    rewrite length_app. simpl. lia.
Qed.

(** X21. [Remove] takes out the first wrapper of the wanted ID, keeps
    every other wrapper, a later one of the same ID too, and returns true;
    when no wrapper has the ID the stack stays as it is and the result is
    false. Removing a wrapper just added or inserted, whose ID no wrapper
    of the stack had, gives the stack back. *)
Theorem Remove_first_of_ID (s : DefaultStack) (wanted : string) (w : DefaultWrapper) :
  (∀ pre t post,
     wrappers s = (pre ++ t :: post)%list → id t = wanted →
     Forall (λ x, id x ≠ wanted) pre →
     Remove s wanted = ({| wrappers := pre ++ post |}, true))
  ∧ (Forall (λ x, id x ≠ wanted) (wrappers s) → Remove s wanted = (s, false))
  ∧ (Forall (λ x, id x ≠ id w) (wrappers s) →
     Remove (AddWrapper s w) (id w) = (s, true)
     ∧ Remove (InsertBefore s wanted w).1 (id w) = (s, true)
     ∧ Remove (InsertAfter s wanted w).1 (id w) = (s, true)).
Proof.
  split; [|split].
  - intros pre t post Hs <- Hpre. by apply Remove_found.
  - intros Hws. unfold Remove. by rewrite find_ID_missing.
  - intros Hfresh. destruct s as [ws]. cbn [wrappers] in *.
    assert (Hadd : Remove (AddWrapper {| wrappers := ws |} w) (id w)
                   = ({| wrappers := ws |}, true)).
    { rewrite (Remove_found _ ws w []) by done. by rewrite app_nil_r. }
    split; [exact Hadd|].
    destruct (find_ID_cases wanted ws) as [(pre & t & post & Hs & Ht & Hpre)|Hws].
    + subst wanted. rewrite Hs in Hfresh.
      apply Forall_app in Hfresh as [Hfpre Hfpost].
      apply Forall_cons in Hfpost as [Hft Hfpost].
      rewrite (InsertBefore_found {| wrappers := ws |} w pre t post) by done.
      rewrite (InsertAfter_found {| wrappers := ws |} w pre t post) by done.
      cbn [fst]. split.
      * rewrite (Remove_found _ pre w (t :: post)) by done. by rewrite Hs.
      * rewrite (Remove_found _ (pre ++ [t]) w post).
        -- by rewrite Hs, <- app_assoc.
        -- cbn [wrappers]. by rewrite <- app_assoc.
        -- apply Forall_app. split; [done|]. by apply Forall_singleton.
    + unfold InsertBefore, InsertAfter. rewrite find_ID_missing by done.
      cbn [fst wrappers]. split; exact Hadd.
Qed.

(** *** Endpoints from specifications *)



Lemma Insert_next_to_first_witness :
  InsertBefore (NewStack [NewWrapper "a" (λ h, h); NewWrapper "b" (λ h, h)]) "b"
    (NewWrapper "c" (λ h, h))
  = ({| wrappers := [NewWrapper "a" (λ h, h); NewWrapper "c" (λ h, h);
                     NewWrapper "b" (λ h, h)] |}, true).
Proof.
  destruct (Insert_next_to_first
              (NewStack [NewWrapper "a" (λ h, h); NewWrapper "b" (λ h, h)]) "b"
              (NewWrapper "c" (λ h, h))) as (Hfound & _).
  destruct (Hfound [NewWrapper "a" (λ h, h)] (NewWrapper "b" (λ h, h)) [])
    as [Hbefore _]; [reflexivity|reflexivity| |exact Hbefore].
  apply Forall_singleton. discriminate.
Defined.

Lemma Remove_first_of_ID_witness :
  Remove (AddWrapper (NewStack [NewWrapper "a" (λ h, h)]) (NewWrapper "c" (λ h, h))) "c"
  = (NewStack [NewWrapper "a" (λ h, h)], true).
Proof.
  destruct (Remove_first_of_ID (NewStack [NewWrapper "a" (λ h, h)]) "a"
              (NewWrapper "c" (λ h, h))) as (_ & _ & Hround).
  destruct Hround as [Hadd _]; [|exact Hadd].
  apply Forall_singleton. discriminate.
Defined.

End EndpointExtra.

(** * Registration on the dispatch handler, and the facade *)

Module DispatchExtra.

Import Router Server Endpoint Dispatch RouterSpec ServerSpec.
Import RouterMore ServerMore DispatchMore.
Import RouterProps ServerProps.

(** *** A registered endpoint is served *)

Lemma Method_guarded (h : Handler) (r : Request) : Method (guarded h r) = Method r.
Proof. unfold guarded. by destruct (0 <? bodyLimit h). Qed.

Lemma Path_guarded (h : Handler) (r : Request) : Path (guarded h r) = Path r.
Proof. unfold guarded. by destruct (0 <? bodyLimit h). Qed.

Lemma Match_registered_exact (rt : BuiltinRouter httpHandler) (method pat : string)
    (hd : httpHandler) (req : Request) :
  method ≠ "" → pat ≠ "" → hasParam pat = false →
  Method req = method → Path req = pat →
  Match (Register rt method pat (Some hd)) req
  = Some {| mHandler := hd; mParams := Some ∅ |}.
Proof.
  intros Hm Hp Hhas Hmeth Hpath. rewrite Match_unfold.
  rewrite RouterExtra.exact_at_Register_exact by done.
  by rewrite decide_True.
Qed.



(** *** A path that differs from an exact route by its slashes *)

Lemma unmatched_flow (h : Handler) (g : Request) :
  rMatch (router h) g = None →
  (Method g = "HEAD" → rMatch (router h) (withMethod g "GET") = None) →
  (Method g = "OPTIONS" → Slice.len (allowedMethods h (Path g)) = 0) →
  serveRoutes h g = serveUnmatched h g.
Proof.
  intros Hm Hhead Hopt. unfold serveRoutes, serveMatch. rewrite Hm.
  assert (Hmatch :
    match
      (if bool_decide (None = None :> option (Matched httpHandler))
          && String.eqb (Method g) "HEAD"
       then match rMatch (router h) (withMethod g "GET") with
            | Some m2 =>
                Some (tracked tw0
                        (recoverer h
                           (λ _, discarded
                                   (mHandler m2
                                      (withContext h (withMethod g "GET") (mParams m2))))
                           (withContext h (withMethod g "GET") (mParams m2))))
            | None => None
            end
       else None)
    with
    | Some served => served
    | None => serveUnmatched h g
    end = serveUnmatched h g).
  { destruct (String.eqb_spec (Method g) "HEAD") as [Hh|_];
      [|by rewrite andb_false_r].
    by rewrite (Hhead Hh), andb_true_r. }
  destruct (String.eqb_spec (Method g) "OPTIONS") as [Ho|_]; [|exact Hmatch].
  rewrite (Hopt Ho). exact Hmatch.
Qed.

Lemma exact_only_Match (pat : string) (hd : httpHandler) (req : Request) :
  pat ≠ "" → hasParam pat = false → ¬ (Method req = "GET" ∧ Path req = pat) →
  Match (Register NewBuiltinRouter "GET" pat (Some hd)) req = None.
Proof.
  intros Hp Hhas Hne. rewrite Match_unfold.
  rewrite RouterExtra.exact_at_Register_exact by done.
  rewrite RouterExtra.entries_of_Register_exact by done.
  by rewrite decide_False.
Qed.

Lemma exact_only_routed (pat : string) (hd : httpHandler) (path m : string) :
  pat ≠ "" → hasParam pat = false →
  routed (Register NewBuiltinRouter "GET" pat (Some hd)) path m
  ↔ m = "GET" ∧ path = pat.
Proof.
  intros Hp Hhas. unfold routed.
  rewrite RouterExtra.exact_at_Register_exact by done.
  rewrite RouterExtra.entries_of_Register_exact by done.
  case_decide as Hd; split.
  - done.
  - intros _. left. by eexists.
  - intros [[? [=]]|(e & He & _)]. by inversion He.
  - done.
Qed.

Lemma exact_only_MethodsFor (pat : string) (hd : httpHandler) (path : string) :
  pat ≠ "" → hasParam pat = false →
  MethodsFor (Register NewBuiltinRouter "GET" pat (Some hd)) path
  = if decide (path = pat) then Made ["OPTIONS"; "GET"; "HEAD"] else Made [].
Proof.
  intros Hp Hhas. rewrite MethodsFor_closed.
  assert (Hset : routed_set (Register NewBuiltinRouter "GET" pat (Some hd)) path
                 = if decide (path = pat) then {["GET"]} else ∅).
  { apply set_eq. intros m. rewrite elem_of_routed_set, exact_only_routed by done.
    case_decide; set_solver. }
  rewrite Hset. by case_decide.
Qed.

Lemma getOnly_lookup (pat pat' : string) (mm : gmap string bool) :
  (<[pat := <["GET" := true]> (default ∅ ((∅ : gmap string (gmap string bool)) !! pat))]>
     (∅ : gmap string (gmap string bool))) !! pat' = Some mm
  ↔ pat' = pat ∧ mm = {["GET" := true]}.
Proof.
  rewrite lookup_empty. cbn [default]. rewrite lookup_insert_Some, lookup_empty.
  naive_solver.
Qed.

Lemma has_method_GET (method : string) :
  has_method {["GET" := true]} method = bool_decide (method = "GET").
Proof.
  unfold has_method. destruct (decide (method = "GET")) as [->|Hne].
  - by rewrite lookup_singleton_eq.
  - rewrite lookup_singleton_ne by done. by rewrite bool_decide_eq_false_2.
Qed.

(** X24. On a new server with one exact GET route: a request for its
    path with a method other than GET, HEAD and OPTIONS is answered 405
    with the Allow header of the route. A request whose path differs from
    the pattern only by its leading or trailing slashes finds no route:
    with GET it is answered 404 by the not-found handler, and with any
    other method 405, without an Allow header. *)
Theorem slash_variant_of_exact_route (pat : string) (fn : option httpHandler)
    (r : Request) :
  let h := serving (Get (NewServer []) pat fn).1 in
  pat ≠ "" → hasParam pat = false → passes_guard h r →
  (Path r = pat → Method r ≠ "GET" → Method r ≠ "HEAD" → Method r ≠ "OPTIONS" →
   ServeHTTP h r
   = {| effects := HeaderSet "Allow" "OPTIONS, GET, HEAD"
                   :: http_Error "Method Not Allowed" StatusMethodNotAllowed;
        result := Returned |})
  ∧ (Path r ≠ pat → Method r = "GET" →
     ServeHTTP h r
     = {| effects := http_Error "404 page not found" 404; result := Returned |})
  ∧ (Path r ≠ pat → splitPath (Path r) = splitPath pat → Method r ≠ "GET" →
     ServeHTTP h r
     = {| effects := http_Error "Method Not Allowed" StatusMethodNotAllowed;
          result := Returned |}).
Proof.
  intros h Hp Hhas Hguard. rewrite ServeHTTP_guarded by done.
  set (g := guarded h r).
  assert (HM : Method g = Method r) by apply Method_guarded.
  assert (HP : Path g = Path r) by apply Path_guarded.
  set (hd := composed (route_endpoint "GET" pat fn)).
  assert (Hrouter : router h = builtin (Register NewBuiltinRouter "GET" pat (Some hd)))
    by reflexivity.
  assert (Hallow : ∀ p, allowedMethods h p
                        = if decide (p = pat) then Made ["OPTIONS"; "GET"; "HEAD"]
                          else Made []).
  { intros p. unfold allowedMethods. rewrite Hrouter. cbn [rMethodsFor builtin].
    by apply exact_only_MethodsFor. }
  assert (Hnot : isMethodNotAllowed h g = true
                 ↔ stands_for pat (Path r) ∧ Method r ≠ "GET").
  { rewrite ServerExtra.isMethodNotAllowed_iff, HM, HP. split.
    - intros (pat' & mm & Hl & Hs & Hm). apply getOnly_lookup in Hl as [-> ->].
      split; [done|]. rewrite has_method_GET in Hm.
      by apply bool_decide_eq_false in Hm.
    - intros [Hs Hm]. exists pat, {["GET" := true]}. split; [by apply getOnly_lookup|].
      split; [done|]. rewrite has_method_GET. by apply bool_decide_eq_false. }
  assert (Hflow : ¬ (Method r = "GET" ∧ Path r = pat) →
                  (Path r = pat → Method r ≠ "HEAD" ∧ Method r ≠ "OPTIONS") →
                  serveRoutes h g = serveUnmatched h g).
  { intros Hne Hsame. apply unmatched_flow.
    - rewrite Hrouter. cbn [rMatch builtin].
      apply exact_only_Match; [done..|]. by rewrite HM, HP.
    - intros Hhead. rewrite Hrouter. cbn [rMatch builtin].
      apply exact_only_Match; [done..|].
      cbn [withMethod Method Path]. rewrite HP. intros [_ Hpath].
      destruct (Hsame Hpath) as [Hh _]. by rewrite <- HM in Hh.
    - intros Hopt. rewrite Hallow, HP.
      case_decide as Hd; [|done]. destruct (Hsame Hd) as [_ Ho].
      by rewrite <- HM in Ho. }
  split; [|split].
  - intros Hpath Hget Hhead Hopt. rewrite Hflow by naive_solver.
    unfold serveUnmatched.
    rewrite (proj2 Hnot) by (split; [by left|done]).
    rewrite Hallow, HP, decide_True by done. reflexivity.
  - intros Hpath Hget. rewrite Hflow by naive_solver.
    unfold serveUnmatched.
    destruct (isMethodNotAllowed h g) eqn:Hn; [|reflexivity].
    by destruct (proj1 Hnot eq_refl) as [_ Hn'].
  - intros Hpath Hsplit Hget. rewrite Hflow by naive_solver.
    unfold serveUnmatched.
    rewrite (proj2 Hnot).
    + rewrite Hallow, HP, decide_False by done. reflexivity.
    + split; [|done]. right. unfold takes. rewrite Hsplit.
      apply ServerExtra.takes_itself.
Qed.

Lemma slash_variant_of_exact_route_witness :
  ServeHTTP (serving (Get (NewServer []) "/x" (Some getResource)).1)
            (request "POST" "/x/")
  = {| effects := http_Error "Method Not Allowed" StatusMethodNotAllowed;
       result := Returned |}.
Proof.
  assert (Hguard : passes_guard (serving (Get (NewServer []) "/x" (Some getResource)).1)
                                (request "POST" "/x/")) by (right; discriminate).
  destruct (slash_variant_of_exact_route "/x" (Some getResource) (request "POST" "/x/"))
    as (_ & _ & H405); [discriminate|reflexivity|exact Hguard|].
  apply H405; [discriminate|reflexivity|discriminate].
Defined.

(** *** Changing a registered endpoint *)

(** X25. [WithHandler] on a registered endpoint unregisters the route
    and registers it again with the new handler: the route stays in the
    registry; when its URL has no parameter, a request of its method for
    that path is matched to the new handler; when its URL has parameters,
    the entry of the route leaves its place in the list of the method and
    a new entry goes to the end, behind the routes registered after the
    endpoint. *)
Theorem WithHandler_registers_again (s : Mount) (ep : DefaultEndpoint)
    (fn : option httpHandler) (req : Request) :
  let ep' := ep_WithHandler ep fn in
  let s' := (re_WithHandler s ep fn).1 in
  ep_Method ep ≠ "" → ep_URL ep ≠ "" →
  (re_WithHandler s ep fn).2 = ep'
  ∧ tracked_route s' (ep_Method ep) (ep_URL ep)
  ∧ (hasParam (ep_URL ep) = false →
     Method req = ep_Method ep → Path req = ep_URL ep →
     Match (routes s') req = Some {| mHandler := composed ep'; mParams := Some ∅ |})
  ∧ (hasParam (ep_URL ep) = true →
     entries_of (routes s') (ep_Method ep)
     = (filter (λ e, pattern e ≠ ep_URL ep) (entries_of (routes s) (ep_Method ep))
        ++ [entry_of ep'])%list).
Proof.
  intros ep' s' Hm Hu.
  assert (Hroutes : routes s'
                    = Register (Unregister (routes s) (ep_Method ep) (ep_URL ep))
                        (ep_Method ep) (ep_URL ep) (Some (composed ep')))
    by reflexivity.
  split; [done|]. split; [|split].
  - unfold tracked_route, s', re_WithHandler, reregister.
    cbn [fst h_Register foldl registerOne fields withRegistered registeredRoutes].
    change (ep_URL (ep_WithHandler ep fn)) with (ep_URL ep).
    change (ep_Method (ep_WithHandler ep fn)) with (ep_Method ep).
    rewrite lookup_insert_eq. cbn [mbind option_bind].
    rewrite lookup_insert_eq. by eexists.
  - intros Hhas Hmeth Hpath. rewrite Hroutes. by apply Match_registered_exact.
  - intros Hhas. rewrite Hroutes.
    rewrite RouterExtra.entries_of_Register_param by done.
    rewrite decide_True by done. rewrite entries_of_Unregister.
    by rewrite decide_True.
Qed.

Lemma WithHandler_registers_again_witness :
  let s := (Get (Get (NewServer []) "/a/:x" (Some boom)).1 "/a/:y" (Some getResource)).1 in
  entries_of (routes (re_WithHandler s (route_endpoint "GET" "/a/:x" (Some boom))
                        (Some lateStatus)).1) "GET"
  = [entry_of (route_endpoint "GET" "/a/:y" (Some getResource));
     entry_of (route_endpoint "GET" "/a/:x" (Some lateStatus))].
Proof.
  intros s.
  destruct (WithHandler_registers_again s (route_endpoint "GET" "/a/:x" (Some boom))
              (Some lateStatus) (request "GET" "/a/1"))
    as (_ & _ & _ & Hparam); [discriminate|discriminate|].
  refine (eq_trans (Hparam eq_refl) _). reflexivity.
Defined.

(** *** The registry and the router in step *)

Lemma h_Register_fold (eps : list DefaultEndpoint) : ∀ (s : Mount) (evs : list Event),
  (foldl (λ acc ep, let '(s', ev) := registerOne acc.1 ep in (s', (acc.2 ++ [ev])%list))
         (s, evs) eps).1
  = foldl (λ s ep, (registerOne s ep).1) s eps.
Proof.
  induction eps as [|ep eps IH]; intros s evs; [done|].
  cbn [foldl]. cbn [registerOne fst snd]. apply IH.
Qed.

Lemma tracked_registerOne (s : Mount) (ep : DefaultEndpoint) (method path : string) :
  tracked_route (registerOne s ep).1 method path
  ↔ tracked_route s method path ∨ (method = ep_Method ep ∧ path = ep_URL ep).
Proof.
  unfold tracked_route. cbn [registerOne fst fields withRegistered registeredRoutes].
  destruct (decide (path = ep_URL ep)) as [->|Hp].
  - rewrite lookup_insert_eq. cbn [mbind option_bind].
    destruct (decide (method = ep_Method ep)) as [->|Hm].
    + rewrite lookup_insert_eq. split; [by right|by eexists].
    + rewrite lookup_insert_ne by done.
      destruct (registeredRoutes (fields s) !! ep_URL ep) as [mm|]; cbn.
      * naive_solver.
      * rewrite lookup_empty. naive_solver.
  - rewrite lookup_insert_ne by done. naive_solver.
Qed.

Lemma router_Register (rt : BuiltinRouter httpHandler) (m u : string) (hd : httpHandler)
    (method path : string) :
  method ≠ "" → path ≠ "" →
  (if hasParam path
   then ∃ e, e ∈ entries_of (Register rt m u (Some hd)) method ∧ pattern e = path
   else is_Some (exact_at (Register rt m u (Some hd)) method path))
  ↔ (if hasParam path
     then ∃ e, e ∈ entries_of rt method ∧ pattern e = path
     else is_Some (exact_at rt method path))
    ∨ (method = m ∧ path = u).
Proof.
  intros Hmethod Hpath.
  destruct (decide (m = "")) as [->|Hm];
    [rewrite Register_invalid by auto; naive_solver|].
  destruct (decide (u = "")) as [->|Hu];
    [rewrite Register_invalid by auto; naive_solver|].
  destruct (hasParam u) eqn:Hhas; destruct (hasParam path) eqn:Hhp.
  - rewrite RouterExtra.entries_of_Register_param by done.
    case_decide as Hd; [subst method|naive_solver]. split.
    + intros (e & He & Hpat). apply elem_of_app in He as [He|He]; [left; eauto|].
      apply list_elem_of_singleton in He as ->. by right.
    + intros [(e & He & Hpat)|[_ ->]].
      * exists e. split; [|done]. apply elem_of_app. by left.
      * eexists. split; [apply elem_of_app; right; by apply list_elem_of_singleton|done].
  - rewrite RouterExtra.exact_at_Register_param by done.
    split; [by left|]. intros [?|[_ ->]]; [done|congruence].
  - rewrite RouterExtra.entries_of_Register_exact by done.
    split; [by left|]. intros [?|[_ ->]]; [done|congruence].
  - rewrite RouterExtra.exact_at_Register_exact by done.
    case_decide as Hd; [|naive_solver]. split; [by right|by eexists].
Qed.

Lemma router_registerOne (s : Mount) (ep : DefaultEndpoint) (method path : string) :
  method ≠ "" → path ≠ "" →
  router_route (registerOne s ep).1 method path
  ↔ router_route s method path ∨ (method = ep_Method ep ∧ path = ep_URL ep).
Proof. intros Hm Hp. unfold router_route. by apply router_Register. Qed.

Lemma in_step_registerOne (s : Mount) (ep : DefaultEndpoint) :
  in_step s → in_step (registerOne s ep).1.
Proof.
  intros [Hroutes Hreg]. split.
  - intros method path Hm Hp.
    rewrite tracked_registerOne, router_registerOne by done.
    by rewrite (Hroutes method path Hm Hp).
  - cbn [registerOne fst fields withRegistered registeredRoutes].
    intros path mm Hl.
    apply lookup_insert_Some in Hl as [[<- <-]|[_ Hl]]; [|by apply (Hreg path)].
    split; [apply insert_non_empty|].
    intros method b Hb.
    apply lookup_insert_Some in Hb as [[_ <-]|[_ Hb]]; [done|].
    destruct (registeredRoutes (fields s) !! ep_URL ep) as [mm0|] eqn:Hmm0.
    + by apply (proj2 (Hreg _ _ Hmm0) method).
    + cbn [default] in Hb. by rewrite lookup_empty in Hb.
Qed.

Lemma in_step_h_Register (eps : list DefaultEndpoint) : ∀ s : Mount,
  in_step s → in_step (h_Register s eps).1.
Proof.
  intros s. unfold h_Register. rewrite h_Register_fold. revert s.
  induction eps as [|ep eps IH]; intros s Hs; [done|].
  cbn [foldl]. by apply IH, in_step_registerOne.
Qed.

Lemma tracked_h_Unregister (s : Mount) (m u method path : string) :
  tracked_route (h_Unregister s m u) method path
  ↔ tracked_route s method path ∧ ¬ (method = m ∧ path = u).
Proof.
  unfold tracked_route. cbn [h_Unregister fields withRegistered registeredRoutes].
  destruct (registeredRoutes (fields s) !! u) as [mm|] eqn:Hmm.
  - destruct (Nat.eqb_spec (size (delete m mm)) 0) as [Hz|Hnz].
    + apply map_size_empty_iff in Hz.
      destruct (decide (path = u)) as [->|Hp].
      * rewrite lookup_delete_eq, Hmm. cbn [mbind option_bind].
        split; [by intros [? [=]]|]. intros [Hs Hne].
        destruct (decide (method = m)) as [->|Hne']; [naive_solver|].
        rewrite <- (lookup_delete_ne mm m method), Hz, lookup_empty in Hs by done.
        by destruct Hs.
      * rewrite lookup_delete_ne by done. naive_solver.
    + destruct (decide (path = u)) as [->|Hp].
      * rewrite lookup_insert_eq, Hmm. cbn [mbind option_bind].
        destruct (decide (method = m)) as [->|Hne'].
        -- rewrite lookup_delete_eq. split; [by intros [? [=]]|naive_solver].
        -- rewrite lookup_delete_ne by done. naive_solver.
      * rewrite lookup_insert_ne by done. naive_solver.
  - destruct (decide (path = u)) as [->|Hp]; [|naive_solver].
    rewrite Hmm. cbn. split; [by intros [? [=]]|by intros [[? [=]] _]].
Qed.

Lemma router_h_Unregister (s : Mount) (m u method path : string) :
  router_route (h_Unregister s m u) method path
  ↔ router_route s method path ∧ ¬ (method = m ∧ path = u).
Proof.
  unfold router_route. cbn [h_Unregister routes].
  destruct (hasParam path).
  - rewrite entries_of_Unregister. case_decide as Hd; [subst method|naive_solver].
    split.
    + intros (e & He & Hpat). apply list_elem_of_filter in He as [Hne He].
      split; [eauto|]. intros [_ ->]. done.
    + intros [(e & He & Hpat) Hne]. exists e. split; [|done].
      apply list_elem_of_filter. split; [|done]. intros Heq. apply Hne. by rewrite <- Hpat.
  - rewrite exact_at_Unregister. case_decide as Hd.
    + split; [by intros [? [=]]|]. by intros [_ Hne].
    + naive_solver.
Qed.

Lemma in_step_h_Unregister (s : Mount) (m u : string) :
  in_step s → in_step (h_Unregister s m u).
Proof.
  intros [Hroutes Hreg]. split.
  - intros method path Hm Hp.
    rewrite tracked_h_Unregister, router_h_Unregister.
    by rewrite (Hroutes method path Hm Hp).
  - cbn [h_Unregister fields withRegistered registeredRoutes].
    intros path mm Hl.
    destruct (registeredRoutes (fields s) !! u) as [mm0|] eqn:Hmm0; [|by apply (Hreg path)].
    destruct (Nat.eqb_spec (size (delete m mm0)) 0) as [Hz|Hnz].
    + apply lookup_delete_Some in Hl as [_ Hl]. by apply (Hreg path).
    + apply lookup_insert_Some in Hl as [[<- <-]|[_ Hl]]; [|by apply (Hreg path)].
      split.
      * intros Hempty. apply Hnz. by rewrite Hempty, map_size_empty.
      * intros method b Hb. apply lookup_delete_Some in Hb as [_ Hb].
        by apply (proj2 (Hreg _ _ Hmm0) method).
Qed.

(** X26. [Handler.Register] and [Handler.Unregister] keep the registry
    of the handler and its router in step: after any calls of them on a
    handler that started with an empty router and an empty registry, a
    method and a path that are not empty are in the registry exactly when
    the router has a route registered under them; no path of the registry
    is without a method, and every method in it is marked true. *)
Theorem registry_in_step_with_router (s0 : Mount) (ops : list mountOp) :
  routes s0 = NewBuiltinRouter → registeredRoutes (fields s0) = ∅ →
  in_step (apply_mountOps s0 ops).
Proof.
  intros Hrt Hrr.
  assert (H0 : in_step s0).
  { split.
    - intros method path _ _. unfold tracked_route, router_route.
      rewrite Hrr, Hrt, lookup_empty. cbn.
      destruct (hasParam path); split; try (by intros [? [=]]).
      intros (e & He & _). by inversion He.
    - intros path mm Hl. by rewrite Hrr, lookup_empty in Hl. }
  unfold apply_mountOps. clear Hrt Hrr.
  induction ops as [|op ops IH] using rev_ind; [done|].
  rewrite foldl_app. cbn [foldl].
  destruct op; [by apply in_step_h_Register|by apply in_step_h_Unregister].
Qed.

Lemma registry_in_step_with_router_witness :
  in_step (apply_mountOps (NewServer [])
             [DoRegister [NewEndpoint "/a/:x" "GET"]; DoUnregister "GET" "/a/:x"]).
Proof.
  apply (registry_in_step_with_router (NewServer [])); reflexivity.
Defined.

End DispatchExtra.
